(** * hiudyy/import: the dependency-resolving package importer

    A shallow embedding of [src/importer.js] and [src/network.js], with
    [formatModuleList] of [cli.js].

    - JavaScript strings are modelled as [string] (byte strings holding the
      UTF-8 encoding of well-formed text).  Every character the code looks
      for ([@], [/], [:], [^], [~]) is ASCII, so splitting and prefix tests
      on bytes agree with the same operations on UTF-16 code units.
    - [Map] and [Set] objects are [gmap] and [gset].
    - An [async] function is a resumption ([task]): synchronous code runs
      up to the next [await], where the task is suspended; a scheduler
      choice picks which suspended continuation runs next. *)

From Stdlib Require Import ZArith Ascii String Lia.
From stdpp Require Import gmap strings list pretty.

Set Warnings "-register-all".
Open Scope string_scope.

(** ** String primitives of the JavaScript runtime *)

Module JS.

(** [s.split(sep)] for a one-character separator: never empty. *)
Fixpoint split (sep : ascii) (s : string) : list string :=
  match s with
  | EmptyString => [EmptyString]
  | String c s' =>
      if Ascii.eqb c sep then EmptyString :: split sep s'
      else match split sep s' with
           | [] => [String c EmptyString]
           | h :: t => String c h :: t
           end
  end.

(** [parts.join(sep)] *)
Fixpoint join (sep : string) (parts : list string) : string :=
  match parts with
  | [] => ""
  | [p] => p
  | p :: ps => p ++ sep ++ join sep ps
  end.

(** [parts.pop()] on a freshly split array: its last element. *)
Definition pop (parts : list string) : string := List.last parts "".

(** [s.startsWith(p)] *)
Fixpoint startsWith (p s : string) : bool :=
  match p, s with
  | EmptyString, _ => true
  | String a p', String b s' => Ascii.eqb a b && startsWith p' s'
  | String _ _, EmptyString => false
  end.

(** [s.indexOf(c)]: [-1] when [c] does not occur. *)
Fixpoint indexOf (c : ascii) (s : string) : Z :=
  match s with
  | EmptyString => (-1)%Z
  | String a s' =>
      if Ascii.eqb a c then 0%Z
      else let i := indexOf c s' in if (i <? 0)%Z then (-1)%Z else (i + 1)%Z
  end.

Fixpoint drop (n : nat) (s : string) : string :=
  match n, s with
  | S n', String _ s' => drop n' s'
  | _, _ => s
  end.

Fixpoint take (n : nat) (s : string) : string :=
  match n, s with
  | S n', String a s' => String a (take n' s')
  | _, _ => ""
  end.

(** [s.substring(i)] and [s.substring(i, j)]: negative indices count as
    [0], indices past the end as the length, and the two are swapped when
    [i > j]. *)
Definition substring_from (i : Z) (s : string) : string :=
  drop (Z.to_nat i) s.

Definition substring (i j : Z) (s : string) : string :=
  let a := Z.to_nat (Z.min i j) in
  let b := Z.to_nat (Z.max i j) in
  take (b - a) (drop a s).

(** [s.slice(1)] *)
Definition slice1 (s : string) : string := drop 1 s.

(** [s.replace(/[\^~]/g, '')] *)
Fixpoint strip_range_operators (s : string) : string :=
  match s with
  | EmptyString => ""
  | String c s' =>
      if Ascii.eqb c "^" || Ascii.eqb c "~" then strip_range_operators s'
      else String c (strip_range_operators s')
  end.

(** [s.replace(pat, '')]: only the first occurrence of [pat] goes. *)
Fixpoint remove_first (pat s : string) : string :=
  if startsWith pat s then drop (String.length pat) s
  else match s with
       | EmptyString => ""
       | String c s' => String c (remove_first pat s')
       end.

(** [s.toUpperCase()] on ASCII letters. *)
Definition upper (c : ascii) : ascii :=
  let n := nat_of_ascii c in
  if (97 <=? n)%nat && (n <=? 122)%nat then ascii_of_nat (n - 32) else c.

Fixpoint toUpperCase (s : string) : string :=
  match s with
  | EmptyString => ""
  | String c s' => String (upper c) (toUpperCase s')
  end.

(** [encodeURIComponent]: the bytes of the UTF-8 encoding are escaped as
    [%XX], except letters, digits and [- _ . ! ~ * ' ( )]. *)
Definition unreserved (c : ascii) : bool :=
  let n := nat_of_ascii c in
  ((65 <=? n) && (n <=? 90) || (97 <=? n) && (n <=? 122)
   || (48 <=? n) && (n <=? 57))%nat
  || existsb (Ascii.eqb c)
       ["-"; "_"; "."; "!"; "~"; "*"; "'"; "("; ")"]%char.

Definition hex_digit (n : nat) : ascii :=
  if (n <? 10)%nat then ascii_of_nat (48 + n) else ascii_of_nat (55 + n).

Fixpoint encodeURIComponent (s : string) : string :=
  match s with
  | EmptyString => ""
  | String c s' =>
      if unreserved c then String c (encodeURIComponent s')
      else
        let n := nat_of_ascii c in
        String "%" (String (hex_digit (n / 16)) (String (hex_digit (n mod 16))
          (encodeURIComponent s')))
  end.

(** A string is truthy when it is not empty. *)
Definition truthy (s : string) : bool :=
  match s with EmptyString => false | _ => true end.

(** [s.includes(c)] *)
Fixpoint includes (c : ascii) (s : string) : bool :=
  match s with
  | EmptyString => false
  | String a s' => Ascii.eqb a c || includes c s'
  end.

End JS.

(** ** importer.js: the specifier parser *)

Record PackageSpecifier := {
  name : string;
  version : string;
  source : string;
  originalName : string;
  alias : option string        (* [None]: the property is absent *)
}.

Definition is_registry_prefixed (pkgSpec : string) : bool :=
  JS.startsWith "npm:" pkgSpec || JS.startsWith "github:" pkgSpec
  || JS.startsWith "yarn:" pkgSpec.

(** [parsePackageString(input)] *)
Definition parsePackageString (input : string) : PackageSpecifier :=
  let parts := JS.split "@" input in
  let alias_ := List.hd "" parts in
  let rest := List.tl parts in
  let pkgSpec := JS.join "@" rest in
  if negb (JS.truthy pkgSpec) then
    {| name := alias_; version := "latest"; source := "npm";
       originalName := input; alias := None |}
  else
    let result :=
      if is_registry_prefixed pkgSpec then
        {| name := JS.substring_from (JS.indexOf ":" pkgSpec + 1) pkgSpec;
           version := "latest";
           source := JS.substring 0 (JS.indexOf ":" pkgSpec) pkgSpec;
           originalName := input;
           alias := Some alias_ |}
      else if JS.startsWith "@" alias_ then
        {| name := alias_ ++ "@" ++ pkgSpec; version := "latest";
           source := "npm"; originalName := input; alias := None |}
      else
        {| name := alias_; version := pkgSpec; source := "npm";
           originalName := input; alias := None |} in
    if negb (String.eqb (version result) "latest") then
      {| name := name result;
         version := JS.strip_range_operators (version result);
         source := source result;
         originalName := originalName result;
         alias := alias result |}
    else result.

(** [alias || name.split('/').pop()] *)
Definition moduleNameOf (parsed : PackageSpecifier) : string :=
  match alias parsed with
  | Some a => if JS.truthy a then a else JS.pop (JS.split "/" (name parsed))
  | None => JS.pop (JS.split "/" (name parsed))
  end.

(** ** network.js: registry URLs *)

Definition encodedName (nm : string) : string :=
  if JS.startsWith "@" nm then "@" ++ JS.encodeURIComponent (JS.slice1 nm)
  else JS.encodeURIComponent nm.

(** The [version] argument may be [undefined] (a manifest without a
    [version] field): [None], which is falsy like the empty string. *)
Definition version_suffix (sep : string) (ver : option string) (dflt : string)
  : string :=
  match ver with
  | Some v => if JS.truthy v then sep ++ v else dflt
  | None => dflt
  end.

Definition getNpmPackageUrl (nm : string) (ver : option string) : string :=
  "https://unpkg.com/" ++ encodedName nm ++ version_suffix "@" ver ""
  ++ "/package.json".

Definition getNpmFileUrl (nm : string) (ver : option string)
    (filePath : string) : string :=
  "https://unpkg.com/" ++ encodedName nm ++ version_suffix "@" ver ""
  ++ "/" ++ filePath.

(** [name.split('/')[i]] printed inside a template string. *)
Definition nth_or_undefined (i : nat) (parts : list string) : string :=
  List.nth i parts "undefined".

Definition registryPath (nm : string) : string :=
  let scope :=
    if JS.startsWith "@" nm then List.hd "" (JS.split "/" nm) else "" in
  if JS.truthy scope
  then scope ++ "/" ++ nth_or_undefined 1 (JS.split "/" nm)
  else nm.

Definition getNpmRegistryUrl (nm : string) (ver : option string) : string :=
  "https://registry.npmjs.org/" ++ registryPath nm ++ "/"
  ++ version_suffix "" ver "latest".

(** [process.env.YARN_REGISTRY] is passed in: [None] when it is unset. *)
Definition getYarnPackageUrl (YARN_REGISTRY : option string)
    (nm : string) (ver : option string) : string :=
  let yarnRegistry :=
    match YARN_REGISTRY with
    | Some r => if JS.truthy r then r else "https://registry.yarnpkg.com"
    | None => "https://registry.yarnpkg.com"
    end in
  yarnRegistry ++ "/" ++ registryPath nm ++ version_suffix "/" ver "/latest".

Definition getYarnFileUrl (nm : string) (ver : option string)
    (filePath : string) : string :=
  getNpmFileUrl nm ver filePath.

(** ** network.js: the transport client *)

Inductive error :=
| NetworkError (message : string) (statusCode : Z) (url : string)
| Error (message : string).

Definition message_of (e : error) : string :=
  match e with
  | NetworkError m _ _ => m
  | Error m => m
  end.

(** [`${err}`]: an error printed inside a template string. *)
Definition show_error (e : error) : string :=
  match e with
  | NetworkError m _ _ => "NetworkError: " ++ m
  | Error m => "Error: " ++ m
  end.

(** What one [https.get] leads to: the response callback, the [timeout]
    event or the [error] event. *)
Inductive response :=
| Response (statusCode : Z) (statusMessage : string) (body : string)
| Timeout
| SocketError (message : string).

Record options := {
  retries : nat;
  timeout : Z;
  initialDelay : Z;
  maxDelay : Z;
  backoffFactor : Z
}.

Definition INITIAL_RETRY_DELAY : Z := 1000.
Definition MAX_RETRY_DELAY : Z := 10000.
Definition BACKOFF_FACTOR : Z := 2.

Definition default_options : options :=
  {| retries := 3; timeout := 10000; initialDelay := INITIAL_RETRY_DELAY;
     maxDelay := MAX_RETRY_DELAY; backoffFactor := BACKOFF_FACTOR |}.

(** The outcome of [fetchWithRetry]: the delays handed to [setTimeout], in
    order, and the value the promise settles with. *)
Record fetched := {
  delays : list Z;
  settled_with : string + error
}.

(** [attempt(attemptsLeft, delay)]; [n] counts the attempts made so far and
    [get n] is what the [n]-th [https.get] of this call leads to. *)
Fixpoint attempt (url_ : string) (o : options) (get : nat -> response)
    (n attemptsLeft : nat) (delay : Z) {struct attemptsLeft} : fetched :=
  let retry_or_reject (err : error) : fetched :=
    match attemptsLeft with
    | S remaining =>
        match remaining with
        | S _ =>
            let nextDelay := Z.min (delay * backoffFactor o) (maxDelay o) in
            let later := attempt url_ o get (S n) remaining nextDelay in
            {| delays := delay :: delays later;
               settled_with := settled_with later |}
        | O => {| delays := []; settled_with := inr err |}
        end
    | O => {| delays := []; settled_with := inr err |}
    end in
  match get n with
  | Response code statusMessage body =>
      if (400 <=? code)%Z then
        retry_or_reject
          (NetworkError ("HTTP " ++ pretty code ++ " - " ++ statusMessage)
             code url_)
      else {| delays := []; settled_with := inl body |}
  | Timeout => retry_or_reject (NetworkError "Request timeout" 408 url_)
  | SocketError m => retry_or_reject (NetworkError m 0 url_)
  end.

Definition fetchWithRetry (url_ : string) (o : options)
    (get : nat -> response) : fetched :=
  attempt url_ o get 0 (retries o) (initialDelay o).

Definition total_delay (f : fetched) : Z := foldr Z.add 0%Z (delays f).

(** The status a failed attempt puts into its [NetworkError]; [None] for a
    response that resolves the promise. *)
Definition failure_status (r : response) : option Z :=
  match r with
  | Response code _ _ => if (400 <=? code)%Z then Some code else None
  | Timeout => Some 408%Z
  | SocketError _ => Some 0%Z
  end.

(** ** The collaborators outside the repository *)

Module PkgJson.
(** The fields of a parsed [package.json] the importer reads;
    [dependencies] is [Object.entries(pkgJson.dependencies || {})]. *)
Record t := {
  module : option string;
  main : option string;
  version : option string;
  dependencies : list (string * string)
}.
End PkgJson.

Class Platform := {
  (** the network: given the URLs requested earlier (latest first) and the
      URL of this request, what its [n]-th [https.get] leads to *)
  https_get : list string -> string -> nat -> response;
  (** [JSON.parse(data)]: [inl] is the message of the [SyntaxError] *)
  JSON_parse : string -> string + PkgJson.t;
  (** [mod._compile(code, modulePath)]: [Some] is the message of the error
      thrown by compiling or evaluating the code *)
  compile : string -> string -> option string;
  (** [semver.validRange(range)] is not [null] *)
  validRange : string -> bool;
  (** [process.env.YARN_REGISTRY] *)
  YARN_REGISTRY : option string
}.

(** ** importer.js: the process-wide state *)

Inductive level := DEBUG | WARN | ERROR | SUCCESS | PROGRESS | SUCCEED | FAIL.

(** The values async functions settle with. *)
Inductive value :=
| VUndefined
| VString (s : string)
| VPackageJson (p : PkgJson.t)
| VOutcome (success : bool) (nm : string) (err : option string)
| VResults.                    (* the reference to the [results] object *)

Definition result : Type := value + error.

(** A loaded [Module] object. *)
Record LoadedModule := { filename : string; code : string }.

(** Names are [Map] keys; [None] is the key [undefined], which
    [importFromGitHub] uses for a repository string without [/]. *)
Record state := {
  virtualModules : gmap (option string) string;
  packageMetadataCache : gmap string PkgJson.t;
  importingDependencies : gset string;
  failedImports : list (option string * string);   (* in insertion order *)
  require_cache : gmap string LoadedModule;
  results : gmap string value;   (* the [results] object of [importModules] *)
  logged : list (level * string)   (* the calls made to [Logger] *)
}.

Definition initial_state : state :=
  {| virtualModules := ∅; packageMetadataCache := ∅;
     importingDependencies := ∅; failedImports := [];
     require_cache := ∅; results := ∅; logged := [] |}.

Definition set_virtualModules (f : gmap (option string) string ->
    gmap (option string) string) (s : state) : state :=
  {| virtualModules := f (virtualModules s);
     packageMetadataCache := packageMetadataCache s;
     importingDependencies := importingDependencies s;
     failedImports := failedImports s; require_cache := require_cache s;
     results := results s; logged := logged s |}.

Definition set_packageMetadataCache (f : gmap string PkgJson.t ->
    gmap string PkgJson.t) (s : state) : state :=
  {| virtualModules := virtualModules s;
     packageMetadataCache := f (packageMetadataCache s);
     importingDependencies := importingDependencies s;
     failedImports := failedImports s; require_cache := require_cache s;
     results := results s; logged := logged s |}.

Definition set_importingDependencies (f : gset string -> gset string)
    (s : state) : state :=
  {| virtualModules := virtualModules s;
     packageMetadataCache := packageMetadataCache s;
     importingDependencies := f (importingDependencies s);
     failedImports := failedImports s; require_cache := require_cache s;
     results := results s; logged := logged s |}.

Definition set_failedImports (f : list (option string * string) ->
    list (option string * string)) (s : state) : state :=
  {| virtualModules := virtualModules s;
     packageMetadataCache := packageMetadataCache s;
     importingDependencies := importingDependencies s;
     failedImports := f (failedImports s); require_cache := require_cache s;
     results := results s; logged := logged s |}.

Definition set_require_cache (f : gmap string LoadedModule ->
    gmap string LoadedModule) (s : state) : state :=
  {| virtualModules := virtualModules s;
     packageMetadataCache := packageMetadataCache s;
     importingDependencies := importingDependencies s;
     failedImports := failedImports s;
     require_cache := f (require_cache s);
     results := results s; logged := logged s |}.

Definition set_results (f : gmap string value -> gmap string value)
    (s : state) : state :=
  {| virtualModules := virtualModules s;
     packageMetadataCache := packageMetadataCache s;
     importingDependencies := importingDependencies s;
     failedImports := failedImports s; require_cache := require_cache s;
     results := f (results s); logged := logged s |}.

Definition add_log (l : level) (m : string) (s : state) : state :=
  {| virtualModules := virtualModules s;
     packageMetadataCache := packageMetadataCache s;
     importingDependencies := importingDependencies s;
     failedImports := failedImports s; require_cache := require_cache s;
     results := results s; logged := logged s ++ [(l, m)] |}.

(** [failedImports.set(key, message)]: a key already present keeps its
    place in the iteration order. *)
Fixpoint entries_set (key : option string) (m : string)
    (l : list (option string * string)) : list (option string * string) :=
  match l with
  | [] => [(key, m)]
  | (k, v) :: l' =>
      if decide (k = key) then (key, m) :: l' else (k, v) :: entries_set key m l'
  end.

(** A name inside a template string. *)
Definition show (nm : option string) : string := default "undefined" nm.

(** [clearVirtualModules()] *)
Definition clearVirtualModules (s : state) : state :=
  let cache' :=
    foldr (fun entry rc => delete (snd entry) rc) (require_cache s)
      (map_to_list (virtualModules s)) in
  add_log SUCCESS "Virtual module cache cleared"
    {| virtualModules := ∅;
       packageMetadataCache := ∅;
       importingDependencies := importingDependencies s;
       failedImports := [];
       require_cache := cache';
       results := results s;
       logged := logged s |}.

(** [resolveMainFile(pkgJson)] *)
Definition resolveMainFile (pkgJson : PkgJson.t) : string :=
  let truthy_field (f : option string) :=
    match f with
    | Some s => if JS.truthy s then Some s else None
    | None => None
    end in
  match truthy_field (PkgJson.module pkgJson) with
  | Some m => m
  | None => default "index.js" (truthy_field (PkgJson.main pkgJson))
  end.

Definition MAX_CONCURRENT_DOWNLOADS : nat := 5.

(** The slices [xs.slice(i, i + MAX_CONCURRENT_DOWNLOADS)] taken by the
    loop [for (i = 0; i < xs.length; i += MAX_CONCURRENT_DOWNLOADS)]. *)
Fixpoint slices_upto {A} (iterations : nat) (xs : list A) : list (list A) :=
  match iterations, xs with
  | S n, _ :: _ =>
      take MAX_CONCURRENT_DOWNLOADS xs
      :: slices_upto n (drop MAX_CONCURRENT_DOWNLOADS xs)
  | _, _ => []
  end.

Definition slices {A} (xs : list A) : list (list A) :=
  slices_upto (length xs) xs.

(** ** Async functions as resumptions *)

(** A [task] is an async function body in progress.  [Get] and [Put] are
    the synchronous accesses to the process-wide state; [Fetch] is
    [await fetchWithRetry(url)]; [AllSettled] is
    [await Promise.allSettled(promises)], which holds the promises while
    they run.  [Waiting] is a continuation queued behind a promise that
    settles with [r]: an issued fetch, or an [await] of a settled promise.
    [Never] stands for a call that never settles: the recursion of
    [importFromRegistry] cut off at a depth bound. *)
Inductive task : Type :=
| Ret (v : value)
| Throw (e : error)
| Never
| Get (k : state -> task)
| Put (s : state) (k : task)
| Fetch (url_ : string) (k : result -> task)
| Waiting (r : result) (k : result -> task)
| AllSettled (promises : list task) (k : list result -> task).

(** [then_ t k]: run [t], hand what it settles with to [k]. *)
Fixpoint then_ (t : task) (k : result -> task) : task :=
  match t with
  | Ret v => k (inl v)
  | Throw e => k (inr e)
  | Never => Never
  | Get g => Get (fun s => then_ (g s) k)
  | Put s t' => Put s (then_ t' k)
  | Fetch u g => Fetch u (fun r => then_ (g r) k)
  | Waiting r g => Waiting r (fun r' => then_ (g r') k)
  | AllSettled ps g => AllSettled ps (fun rs => then_ (g rs) k)
  end.

Definition settle (r : result) : task :=
  match r with inl v => Ret v | inr e => Throw e end.

(** Sequencing, [try { t } catch (err) { h err }] and
    [try { t } finally { c }]. *)
Definition bind (t : task) (f : value -> task) : task :=
  then_ t (fun r => match r with inl v => f v | inr e => Throw e end).

Definition try_catch (t : task) (h : error -> task) : task :=
  then_ t (fun r => match r with inl v => Ret v | inr e => h e end).

Definition try_finally (t c : task) : task :=
  then_ t (fun r => bind c (fun _ => settle r)).

(** [await t] for the promise of an async call [t]: the caller is resumed
    in a later turn, also when the promise is already settled. *)
Definition await (t : task) : task := then_ t (fun r => Waiting r settle).

Definition modify (f : state -> state) : task :=
  Get (fun s => Put (f s) (Ret VUndefined)).

Definition log (l : level) (m : string) : task := modify (add_log l m).

Declare Scope task_scope.
Delimit Scope task_scope with task.
Bind Scope task_scope with task.
Notation "x <- t ;; k" := (bind t (fun x => k))
  (at level 20, t at level 99, k at level 200, only parsing) : task_scope.
Notation "t ;; k" := (bind t (fun _ => k))
  (at level 100, k at level 200, right associativity, only parsing)
  : task_scope.
Open Scope task_scope.

Definition as_string (v : value) : string :=
  match v with VString s => s | _ => "undefined" end.

Definition as_pkgJson (v : value) : PkgJson.t :=
  match v with
  | VPackageJson p => p
  | _ => {| PkgJson.module := None; PkgJson.main := None;
            PkgJson.version := None; PkgJson.dependencies := [] |}
  end.

(** [r.status === 'rejected' || (r.status === 'fulfilled' && !r.value.success)] *)
Definition is_failure (r : result) : bool :=
  match r with
  | inr _ => true
  | inl (VOutcome success _ _) => negb success
  | inl _ => true
  end.

(** [r.value?.name || 'Unknown'] *)
Definition failure_name (r : result) : string :=
  match r with
  | inl (VOutcome _ n _) => if JS.truthy n then n else "Unknown"
  | _ => "Unknown"
  end.

(** [r.status === 'rejected' ? r.reason : r.value.error], printed. *)
Definition failure_error (r : result) : string :=
  match r with
  | inr e => show_error e
  | inl (VOutcome _ _ (Some m)) => m
  | inl _ => "undefined"
  end.

Definition log_each (lines : list string) : task :=
  foldr (fun line k => log WARN line ;; k) (Ret VUndefined) lines.

Section Importer.
Context `{Platform}.

(** [fetchJson(url)] *)
Definition fetchJson (url_ : string) : task :=
  data <- Fetch url_ settle ;;
  match JSON_parse (as_string data) with
  | inr pkgJson => Ret (VPackageJson pkgJson)
  | inl m =>
      Throw (Error ("Invalid JSON response from " ++ url_ ++ ": " ++ m))
  end.

(** [importModuleFiles(name, urlOrContent, isContent)] *)
Definition importModuleFiles (nm : option string) (urlOrContent : string)
    (isContent : bool) : task :=
  try_catch
    (code_ <- (if isContent then Ret (VString urlOrContent)
               else Fetch urlOrContent settle) ;;
     let modulePath := "/virtual_modules/" ++ show nm ++ ".js" in
     let mod_ := {| filename := modulePath; code := as_string code_ |} in
     match compile (as_string code_) modulePath with
     | Some m =>
         Throw (Error ("Failed to compile " ++ show nm ++ ": " ++ m))
     | None =>
         modify (set_require_cache (insert modulePath mod_)) ;;
         modify (set_virtualModules (insert nm modulePath))
     end)
    (fun err =>
       log ERROR ("Failed to load " ++ show nm ++ ": " ++ message_of err) ;;
       Throw err).

(** The loop over the chunks of dependencies:
    [results.push(...await Promise.allSettled(chunk.map(...)))]. *)
Fixpoint dependencyChunks (importOne : string * string -> task)
    (chunks : list (list (string * string))) (results_ : list result)
    (k : list result -> task) : task :=
  match chunks with
  | [] => k results_
  | chunk :: chunks' =>
      AllSettled (map importOne chunk)
        (fun chunkResults =>
           dependencyChunks importOne chunks' (results_ ++ chunkResults) k)
  end.

(** [importFromRegistry(pkg, source)]; nested calls deeper than [fuel]
    never settle. *)
Fixpoint importFromRegistry (fuel : nat) (pkg source_ : string) : task :=
  match fuel with
  | O => Never
  | S fuel' =>
    let parsed := parsePackageString pkg in
    let nm := name parsed in
    let ver := version parsed in
    Get (fun s =>
    if bool_decide (is_Some (virtualModules s !! Some nm)) then
      log DEBUG ("Module " ++ nm ++ " already loaded")
    else if bool_decide (nm ∈ importingDependencies s) then
      log WARN ("Circular dependency detected for " ++ nm ++ ", skipping")
    else
      log PROGRESS ("📦 Importing " ++ nm ++ "@" ++ ver ++ " from "
                    ++ JS.toUpperCase source_ ++ "...") ;;
      modify (set_importingDependencies (union {[nm]})) ;;
      try_finally
        (try_catch
           (let cacheKey := nm ++ "@" ++ ver in
            cached <- Get (fun s' =>
              match packageMetadataCache s' !! cacheKey with
              | Some p => Ret (VPackageJson p)
              | None =>
                  fetched_ <- try_catch
                    (await (fetchJson
                       (if String.eqb source_ "yarn"
                        then getYarnPackageUrl YARN_REGISTRY nm (Some ver)
                        else getNpmPackageUrl nm (Some ver))))
                    (fun _ =>
                       await (fetchJson (getNpmRegistryUrl nm (Some ver)))) ;;
                  modify (set_packageMetadataCache
                            (insert cacheKey (as_pkgJson fetched_))) ;;
                  Ret fetched_
              end) ;;
            let pkgJson := as_pkgJson cached in
            let importOne (entry : string * string) : task :=
              let depName := fst entry in
              let depVersion := snd entry in
              try_catch
                (let resolvedVersion :=
                   if validRange depVersion then depVersion else "latest" in
                 await (importFromRegistry fuel'
                          (depName ++ "@" ++ resolvedVersion) source_) ;;
                 Ret (VOutcome true depName None))
                (fun err =>
                   log WARN ("Failed to import dependency " ++ depName
                             ++ ": " ++ message_of err) ;;
                   modify (set_failedImports
                             (entries_set (Some depName) (message_of err))) ;;
                   Ret (VOutcome false depName (Some (message_of err)))) in
            dependencyChunks importOne
              (slices (PkgJson.dependencies pkgJson)) []
              (fun results_ =>
                 let mainFile := resolveMainFile pkgJson in
                 let moduleUrl :=
                   if String.eqb source_ "yarn"
                   then getYarnFileUrl nm (PkgJson.version pkgJson) mainFile
                   else getNpmFileUrl nm (PkgJson.version pkgJson) mainFile in
                 await (importModuleFiles (Some nm) moduleUrl false) ;;
                 log SUCCEED ("✨ Successfully imported " ++ nm ++ "@"
                              ++ show (PkgJson.version pkgJson)) ;;
                 let failed := List.filter is_failure results_ in
                 if (0 <? length failed)%nat then
                   log WARN ("Some dependencies of " ++ nm
                             ++ " failed to import:") ;;
                   log_each (map (fun f => "  - " ++ failure_name f ++ ": "
                                           ++ failure_error f) failed)
                 else Ret VUndefined))
           (fun err =>
              log FAIL ("Failed to import " ++ nm ++ ": " ++ message_of err) ;;
              modify (set_failedImports
                        (entries_set (Some nm) (message_of err))) ;;
              Throw err))
        (modify (set_importingDependencies (fun d => d ∖ {[nm]}))))
  end.

(** The loop [for (const branch of branches)] of [importFromGitHub]:
    [k] receives [content] and [error] as the loop leaves them. *)
Fixpoint tryBranches (owner_ : string) (nm : option string)
    (branches : list string) (error_ : option error)
    (k : option string -> option error -> task) : task :=
  match branches with
  | [] => k None error_
  | branch :: branches' =>
      let base := "https://raw.githubusercontent.com/" ++ owner_ ++ "/"
                  ++ show nm ++ "/" ++ branch ++ "/" in
      then_
        (pkgJson <- await (fetchJson (base ++ "package.json")) ;;
         Fetch (base ++ resolveMainFile (as_pkgJson pkgJson)) settle)
        (fun r =>
           match r with
           | inl content => k (Some (as_string content)) error_
           | inr err => tryBranches owner_ nm branches' (Some err) k
           end)
  end.

(** [importFromGitHub(repo)] *)
Definition importFromGitHub (repo : string) : task :=
  let parts := JS.split "/" (JS.remove_first "github:" repo) in
  let owner_ := List.hd "" parts in
  let nm := List.nth_error parts 1 in
  Get (fun s =>
  if bool_decide (is_Some (virtualModules s !! nm)) then
    log DEBUG ("Module " ++ show nm ++ " already loaded")
  else
    log PROGRESS ("🐙 Importing " ++ show nm ++ " from GitHub (" ++ owner_
                  ++ "/" ++ show nm ++ ")...") ;;
    try_catch
      (tryBranches owner_ nm ["main"; "master"] None
         (fun content error_ =>
            match content with
            | Some c =>
                if JS.truthy c then
                  await (importModuleFiles nm c true) ;;
                  log SUCCEED ("✨ Successfully imported " ++ show nm
                               ++ " from GitHub")
                else
                  Throw (default (Error "Failed to fetch repository content")
                           error_)
            | None =>
                Throw (default (Error "Failed to fetch repository content")
                         error_)
            end))
      (fun err =>
         log FAIL ("Failed to import " ++ show nm ++ " from GitHub: "
                   ++ message_of err) ;;
         modify (set_failedImports (entries_set nm (message_of err))) ;;
         Throw err)).

(** The callback [async (mod) => { ... }] of [importModules]. *)
Definition importMember (fuel : nat) (mod_ : string) : task :=
  try_catch
    (let parsed := parsePackageString mod_ in
     let moduleName := moduleNameOf parsed in
     imported <-
       (if String.eqb (source parsed) "npm"
           || String.eqb (source parsed) "yarn"
        then await (importFromRegistry fuel mod_ (source parsed))
        else if String.eqb (source parsed) "github"
        then await (importFromGitHub mod_)
        else await (importFromRegistry fuel mod_ "npm")) ;;
     modify (set_results (insert moduleName imported)) ;;
     Ret (VOutcome true moduleName None))
    (fun err => Ret (VOutcome false mod_ (Some (message_of err)))).

(** The loop over the chunks of [modules]. *)
Fixpoint moduleChunks (fuel : nat) (chunks : list (list string))
    (k : task) : task :=
  match chunks with
  | [] => k
  | chunk :: chunks' =>
      AllSettled (map (importMember fuel) chunk)
        (fun chunkResults =>
           log_each (map (fun r => "Failed to import " ++ failure_name r
                                   ++ ": " ++ failure_error r)
                       (List.filter is_failure chunkResults)) ;;
           moduleChunks fuel chunks' k)
  end.

(** [importModules(modules)] *)
Definition importModules (fuel : nat) (modules : list string) : task :=
  modify (set_results (fun _ => ∅)) ;;
  modify (set_failedImports (fun _ => [])) ;;
  moduleChunks fuel (slices modules)
    (Get (fun s =>
       (if (0 <? length (failedImports s))%nat then
          log WARN (String "010" "Import completed with some failures:") ;;
          log_each (map (fun entry => "  - " ++ show (fst entry) ++ ": "
                                      ++ snd entry) (failedImports s))
        else Ret VUndefined) ;;
       Ret VResults)).

(** ** The event loop *)

Record world := {
  store : state;
  requests : list string       (* the URLs fetched so far, latest first *)
}.

(** What [await fetchWithRetry(url)] settles with: the importer always
    fetches with the default options. *)
Definition fetch_result (earlier : list string) (url_ : string) : result :=
  match settled_with
          (fetchWithRetry url_ default_options (https_get earlier url_)) with
  | inl body => inl (VString body)
  | inr e => inr e
  end.

(** Run the synchronous code of [t] up to its next suspension; the
    promises handed to [Promise.allSettled] were started in order. *)
Fixpoint advance (t : task) (w : world) {struct t} : world * task :=
  match t with
  | Get k => advance (k (store w)) w
  | Put s k => advance k {| store := s; requests := requests w |}
  | Fetch u k =>
      ({| store := store w; requests := u :: requests w |},
       Waiting (fetch_result (requests w) u) k)
  | AllSettled ps k =>
      let fix start (ps : list task) (w : world) : world * list task :=
        match ps with
        | [] => (w, [])
        | p :: ps' =>
            let (w1, p') := advance p w in
            let (w2, ps'') := start ps' w1 in
            (w2, p' :: ps'')
        end in
      let (w', ps') := start ps w in
      (w', AllSettled ps' k)
  | _ => (w, t)
  end.

Definition is_settled (t : task) : bool :=
  match t with Ret _ | Throw _ => true | _ => false end.

Definition result_of (t : task) : result :=
  match t with
  | Throw e => inr e
  | Ret v => inl v
  | _ => inl VUndefined
  end.

(** The number of continuations of [t] that can run now. *)
Fixpoint ready (t : task) : nat :=
  match t with
  | Waiting _ _ => 1
  | AllSettled ps _ =>
      if forallb is_settled ps then 1
      else (fix total (ps : list task) : nat :=
              match ps with
              | [] => 0
              | p :: ps' => ready p + total ps'
              end) ps
  | _ => 0
  end.

(** Run the [i]-th ready continuation of [t] (for [i < ready t]). *)
Fixpoint resume (i : nat) (t : task) (w : world) {struct t} : world * task :=
  match t with
  | Waiting r k => advance (k r) w
  | AllSettled ps k =>
      if forallb is_settled ps then advance (k (map result_of ps)) w
      else
        let fix pick (i : nat) (ps : list task) (w : world)
            : world * list task :=
          match ps with
          | [] => (w, [])
          | p :: ps' =>
              if (i <? ready p)%nat then
                let (w', p') := resume i p w in (w', p' :: ps')
              else
                let (w', ps'') := pick (i - ready p) ps' w in
                (w', p :: ps'')
          end in
        let (w', ps') := pick i ps w in
        (w', AllSettled ps' k)
  | _ => (w, t)
  end.

(** One turn of the event loop: the scheduler's choice [c] selects which
    ready continuation runs. *)
Definition step (c : nat) (cfg : world * task) : world * task :=
  match ready (snd cfg) with
  | O => cfg
  | S n => resume (c mod S n) (snd cfg) (fst cfg)
  end.

Fixpoint run (schedule : list nat) (cfg : world * task) : world * task :=
  match schedule with
  | [] => cfg
  | c :: schedule' => run schedule' (step c cfg)
  end.

(** Calling an async function runs it up to its first suspension. *)
Definition call (t : task) (w : world) : world * task := advance t w.

(** The list traversals inside [advance], [ready] and [resume]. *)
Fixpoint advance_all (ps : list task) (w : world) : world * list task :=
  match ps with
  | [] => (w, [])
  | p :: ps' =>
      let (w1, p') := advance p w in
      let (w2, ps'') := advance_all ps' w1 in
      (w2, p' :: ps'')
  end.

Fixpoint ready_all (ps : list task) : nat :=
  match ps with
  | [] => 0
  | p :: ps' => ready p + ready_all ps'
  end.

Fixpoint resume_in (i : nat) (ps : list task) (w : world)
    : world * list task :=
  match ps with
  | [] => (w, [])
  | p :: ps' =>
      if (i <? ready p)%nat then
        let (w', p') := resume i p w in (w', p' :: ps')
      else
        let (w', ps'') := resume_in (i - ready p) ps' w in (w', p :: ps'')
  end.

End Importer.

(** ** Reasoning about every schedule *)

(** The tasks the event loop holds: nothing is left to run before the
    next turn. *)
Fixpoint suspended (t : task) : bool :=
  match t with
  | Ret _ | Throw _ | Never | Waiting _ _ => true
  | AllSettled ps _ =>
      (fix all (ps : list task) : bool :=
         match ps with
         | [] => true
         | p :: ps' => suspended p && all ps'
         end) ps
  | Get _ | Put _ _ | Fetch _ _ => false
  end.

(** A promise of [t] that can never settle: a call cut off at the depth
    bound is awaited. *)
Fixpoint awaits_never (t : task) : bool :=
  match t with
  | Never => true
  | AllSettled ps _ =>
      (fix any (ps : list task) : bool :=
         match ps with
         | [] => false
         | p :: ps' => awaits_never p || any ps'
         end) ps
  | _ => false
  end.

Section Logic.
(** [R] bounds how the state changes in one synchronous stretch of any
    task, and therefore also how it changes while a task is suspended. *)
Variable R : state -> state -> Prop.

(** [wp Q cur t]: started in state [cur], every state update of [t] and
    of the promises it creates is an [R]-step, and [t] settles only in a
    state and with a result that satisfy [Q], whatever the other tasks
    do ([R]-steps) while [t] is suspended. *)
Fixpoint wp (Q : state -> result -> Prop) (cur : state) (t : task)
    {struct t} : Prop :=
  match t with
  | Ret v => Q cur (inl v)
  | Throw e => Q cur (inr e)
  | Never => True
  | Get k => wp Q cur (k cur)
  | Put s k => R cur s /\ wp Q s k
  | Fetch _ k => forall r cur', R cur cur' -> wp Q cur' (k r)
  | Waiting r k => forall cur', R cur cur' -> wp Q cur' (k r)
  | AllSettled ps k =>
      (forall cur', R cur cur' ->
         (fix all (ps : list task) : Prop :=
            match ps with
            | [] => True
            | p :: ps' => wp (fun _ _ => True) cur' p /\ all ps'
            end) ps)
      /\ (forall rs cur', R cur cur' -> wp Q cur' (k rs))
  end.
End Logic.

(** A task at its head: nothing runs before the next turn. *)
Definition head_suspended (t : task) : Prop :=
  match t with
  | Get _ | Put _ _ | Fetch _ _ => False
  | _ => True
  end.

(** What a rely has to allow: the state updates the importer makes. *)
Record allows (R : state -> state -> Prop) : Prop := {
  allows_log : forall l m s, R s (add_log l m s);
  allows_importing : forall f s, R s (set_importingDependencies f s);
  allows_cache : forall f s, R s (set_packageMetadataCache f s);
  allows_failed : forall f s, R s (set_failedImports f s);
  allows_require : forall p m s, R s (set_require_cache (insert p m) s);
  allows_register : forall nm s,
    is_Some (require_cache s !! ("/virtual_modules/" ++ show nm ++ ".js")) ->
    R s (set_virtualModules
           (insert nm ("/virtual_modules/" ++ show nm ++ ".js")) s)
}.

Definition add_logs (lines : list string) (s : state) : state :=
  fold_left (fun s line => add_log WARN line s) lines s.

Section Posts.
Variable R : state -> state -> Prop.

(** Under [R] a registered module stays registered. *)
Definition registry_stable : Prop :=
  forall a b k, R a b ->
    is_Some (virtualModules a !! k) -> is_Some (virtualModules b !! k).

(** What holds when [importFromRegistry], called in state [before] for
    the name [nm], settles in state [after] with [r]. *)
Definition imported (nm : string) (before after : state) (r : result)
  : Prop :=
  (forall v, r = inl v -> v = VUndefined)
  /\ (nm ∉ importingDependencies before ->
      nm ∉ importingDependencies after)
  /\ (registry_stable -> nm ∉ importingDependencies before ->
      (exists v, r = inl v) -> is_Some (virtualModules after !! Some nm)).
End Posts.

Definition returns_undefined (_ : state) (r : result) : Prop :=
  forall v, r = inl v -> v = VUndefined.

(** The record the callback of [importModules] settles with for [m]. *)
Definition is_outcome_of (m : string) (_ : state) (r : result) : Prop :=
  r = inl (VOutcome true (moduleNameOf (parsePackageString m)) None)
  \/ exists message, r = inl (VOutcome false m (Some message)).

Definition returns_results (I : state -> Prop) (s : state) (r : result)
  : Prop :=
  r = inl VResults /\ I s.

(** The [results] object holds module names of the batch, each mapped to
    [undefined]. *)
Definition results_of (modules : list string) (s : state) : Prop :=
  forall key v, results s !! key = Some v ->
    v = VUndefined
    /\ exists m, m ∈ modules /\ key = moduleNameOf (parsePackageString m).

Section Termination.
Context `{Platform}.

(** Termination of the event loop: no infinite sequence of turns. *)
Inductive halts (cfg : world * task) : Prop :=
| halts_now : ready (snd cfg) = 0 -> halts cfg
| halts_later : (forall c, halts (step c cfg)) -> halts cfg.

Inductive terminates : task -> Prop :=
| terminates_intro t :
    (forall i w, (i < ready t)%nat -> terminates (snd (resume i t w))) -> terminates t.

Inductive all_terminate : list task -> Prop :=
| all_terminate_intro ps :
    (forall i w, (i < ready_all ps)%nat -> all_terminate (snd (resume_in i ps w))) ->
    all_terminate ps.

(** The URL [importFromRegistry] fetches the manifest from first. *)
Definition manifestUrl (source_ nm ver : string) : string :=
  if String.eqb source_ "yarn"
  then getYarnPackageUrl YARN_REGISTRY nm (Some ver)
  else getNpmPackageUrl nm (Some ver).
End Termination.

(** ** The relies used in the proofs *)

Definition any_change : state -> state -> Prop := fun _ _ => True.

Definition keeps_results_of (modules : list string) (a b : state) : Prop :=
  results_of modules a -> results_of modules b.

Definition registry_grows (a b : state) : Prop :=
  forall k, is_Some (virtualModules a !! k) -> is_Some (virtualModules b !! k).

(** Every registered module has its virtual path, and [require.cache]
    holds a module under that path. *)
Definition registered_loaded (s : state) : Prop :=
  forall nm p, virtualModules s !! nm = Some p ->
    p = "/virtual_modules/" ++ show nm ++ ".js"
    /\ is_Some (require_cache s !! p).

Definition keeps_registered_loaded (a b : state) : Prop :=
  registered_loaded a -> registered_loaded b.

(** ** A registry with a dependency cycle *)

Section Registry.
Context `{Platform}.

(** [semver.validRange(depVersion) ? depVersion : 'latest'] *)
Definition resolvedVersion (depVersion : string) : string :=
  if validRange depVersion then depVersion else "latest".

(** The version [importFromRegistry] asks for when it is called for a
    dependency declared with the range [depVersion]. *)
Definition requestedVersion (depVersion : string) : string :=
  if JS.truthy (resolvedVersion depVersion)
  then JS.strip_range_operators (resolvedVersion depVersion)
  else "latest".

(** The network answers the request for the manifest of [nm] at [ver]
    with a text that parses to [m]. *)
Definition serves_manifest (nm ver : string) (m : PkgJson.t) : Prop :=
  exists text,
    (forall earlier,
       fetch_result earlier (getNpmPackageUrl nm (Some ver))
       = inl (VString text))
    /\ JSON_parse text = inr m.

(** The network answers the request for the main file of [nm] with code
    that compiles. *)
Definition serves_main (nm : string) (m : PkgJson.t) : Prop :=
  exists code_,
    (forall earlier,
       fetch_result earlier
         (getNpmFileUrl nm (PkgJson.version m) (resolveMainFile m))
       = inl (VString code_))
    /\ compile code_ ("/virtual_modules/" ++ nm ++ ".js") = None.

(** Package [A] depends on [B] and [B] depends on [A]; both are
    unscoped and are served by the registry. *)
Record two_cycle (A B : string) (mA mB : PkgJson.t) (vA vB : string)
  : Prop := {
  cycle_A_unscoped : JS.includes "@" A = false;
  cycle_B_unscoped : JS.includes "@" B = false;
  cycle_distinct : A <> B;
  cycle_A_depends : PkgJson.dependencies mA = [(B, vB)];
  cycle_B_depends : PkgJson.dependencies mB = [(A, vA)];
  cycle_A_range : is_registry_prefixed (resolvedVersion vA) = false;
  cycle_B_range : is_registry_prefixed (resolvedVersion vB) = false;
  cycle_A_manifest : serves_manifest A "latest" mA;
  cycle_B_manifest : serves_manifest B (requestedVersion vB) mB;
  cycle_A_main : serves_main A mA;
  cycle_B_main : serves_main B mB
}.

(** The world in which importing [A] from a registry with the cycle ends,
    when the main files served are [codeA] and [codeB]. *)
Definition cycle_final (A B : string) (mA mB : PkgJson.t) (vB : string)
    (codeA codeB : string) : world :=
  {| store :=
       {| virtualModules :=
            <[Some A := "/virtual_modules/" ++ A ++ ".js"]>
              (<[Some B := "/virtual_modules/" ++ B ++ ".js"]> ∅);
          packageMetadataCache :=
            <[B ++ "@" ++ requestedVersion vB := mB]>
              (<[A ++ "@" ++ "latest" := mA]> ∅);
          importingDependencies := ({[B]} ∪ ({[A]} ∪ ∅)) ∖ {[B]} ∖ {[A]};
          failedImports := [];
          require_cache :=
            <["/virtual_modules/" ++ A ++ ".js" :=
                {| filename := "/virtual_modules/" ++ A ++ ".js";
                   code := codeA |}]>
              (<["/virtual_modules/" ++ B ++ ".js" :=
                   {| filename := "/virtual_modules/" ++ B ++ ".js";
                      code := codeB |}]> ∅);
          results := <[JS.pop (JS.split "/" A) := VUndefined]> ∅;
          logged :=
            [(PROGRESS, "📦 Importing " ++ A ++ "@" ++ "latest" ++ " from "
                        ++ JS.toUpperCase "npm" ++ "...");
             (PROGRESS, "📦 Importing " ++ B ++ "@" ++ requestedVersion vB
                        ++ " from " ++ JS.toUpperCase "npm" ++ "...");
             (WARN, "Circular dependency detected for " ++ A ++ ", skipping");
             (SUCCEED, "✨ Successfully imported " ++ B ++ "@"
                       ++ show (PkgJson.version mB));
             (SUCCEED, "✨ Successfully imported " ++ A ++ "@"
                       ++ show (PkgJson.version mA))] |};
     requests :=
       [getNpmFileUrl A (PkgJson.version mA) (resolveMainFile mA);
        getNpmFileUrl B (PkgJson.version mB) (resolveMainFile mB);
        getNpmPackageUrl B (Some (requestedVersion vB));
        getNpmPackageUrl A (Some "latest")] |}.

(** The world in which importing [A] ends when [B], its only dependency,
    is found neither on unpkg.com nor in the npm registry (the latter
    fails with [e]) and the main file served for [A] is [codeA]. *)
Definition resilient_final (A B : string) (mA : PkgJson.t) (vB : string)
    (codeA : string) (e : error) : world :=
  {| store :=
       {| virtualModules :=
            <[Some A := "/virtual_modules/" ++ A ++ ".js"]> ∅;
          packageMetadataCache := <[A ++ "@" ++ "latest" := mA]> ∅;
          importingDependencies := ({[B]} ∪ ({[A]} ∪ ∅)) ∖ {[B]} ∖ {[A]};
          failedImports :=
            entries_set (Some B) (message_of e)
              (entries_set (Some B) (message_of e) []);
          require_cache :=
            <["/virtual_modules/" ++ A ++ ".js" :=
                {| filename := "/virtual_modules/" ++ A ++ ".js";
                   code := codeA |}]> ∅;
          results := ∅;
          logged :=
            [(PROGRESS, "📦 Importing " ++ A ++ "@" ++ "latest" ++ " from "
                        ++ JS.toUpperCase "npm" ++ "...");
             (PROGRESS, "📦 Importing " ++ B ++ "@" ++ requestedVersion vB
                        ++ " from " ++ JS.toUpperCase "npm" ++ "...");
             (FAIL, "Failed to import " ++ B ++ ": " ++ message_of e);
             (WARN, "Failed to import dependency " ++ B ++ ": "
                    ++ message_of e);
             (SUCCEED, "✨ Successfully imported " ++ A ++ "@"
                       ++ show (PkgJson.version mA));
             (WARN, "Some dependencies of " ++ A ++ " failed to import:");
             (WARN, "  - "
                    ++ failure_name
                         (inl (VOutcome false B (Some (message_of e))))
                    ++ ": "
                    ++ failure_error
                         (inl (VOutcome false B (Some (message_of e)))))] |};
     requests :=
       [getNpmFileUrl A (PkgJson.version mA) (resolveMainFile mA);
        getNpmRegistryUrl B (Some (requestedVersion vB));
        getNpmPackageUrl B (Some (requestedVersion vB));
        getNpmPackageUrl A (Some "latest")] |}.
End Registry.

(** The world in which importing the repository [owner/repo] from GitHub
    ends when the branch [main] has no manifest and the branch [master]
    has the manifest [m] and the main file [content]. *)
Definition master_final (owner repo : string) (m : PkgJson.t)
    (content : string) : world :=
  {| store :=
       {| virtualModules :=
            <[Some repo := "/virtual_modules/" ++ repo ++ ".js"]> ∅;
          packageMetadataCache := ∅;
          importingDependencies := ∅;
          failedImports := [];
          require_cache :=
            <["/virtual_modules/" ++ repo ++ ".js" :=
                {| filename := "/virtual_modules/" ++ repo ++ ".js";
                   code := content |}]> ∅;
          results := ∅;
          logged :=
            [(PROGRESS, "🐙 Importing " ++ repo ++ " from GitHub (" ++ owner
                        ++ "/" ++ repo ++ ")...");
             (SUCCEED, "✨ Successfully imported " ++ repo
                       ++ " from GitHub")] |};
     requests :=
       [("https://raw.githubusercontent.com/" ++ owner ++ "/" ++ repo ++ "/"
         ++ "master" ++ "/") ++ resolveMainFile m;
        ("https://raw.githubusercontent.com/" ++ owner ++ "/" ++ repo ++ "/"
         ++ "master" ++ "/") ++ "package.json";
        ("https://raw.githubusercontent.com/" ++ owner ++ "/" ++ repo ++ "/"
         ++ "main" ++ "/") ++ "package.json"] |}.

(** ** The spec's reading of two claims *)

(** The batch report of the spec, read off the returned object: it has the
    fields [succeeded] and [failed]. *)
Definition spec_is_batch_report (returned : gmap string value) : Prop :=
  is_Some (returned !! "succeeded") /\ is_Some (returned !! "failed").

(** Percent-encoding per path segment, as the spec words it: every
    [/]-separated segment is encoded on its own and the [/] stay. *)
Definition spec_encoded_per_segment (nm : string) : string :=
  JS.join "/" (map JS.encodeURIComponent (JS.split "/" nm)).

(** Induction over a task, its continuations and its promises. *)
Section TaskInd.
Variable P : task -> Prop.
Hypothesis HRet : forall v, P (Ret v).
Hypothesis HThrow : forall e, P (Throw e).
Hypothesis HNever : P Never.
Hypothesis HGet : forall k, (forall s, P (k s)) -> P (Get k).
Hypothesis HPut : forall s k, P k -> P (Put s k).
Hypothesis HFetch : forall u k, (forall r, P (k r)) -> P (Fetch u k).
Hypothesis HWaiting : forall r k, (forall r', P (k r')) -> P (Waiting r k).
Hypothesis HAllSettled : forall ps k,
  Forall P ps -> (forall rs, P (k rs)) -> P (AllSettled ps k).

Fixpoint task_children_ind (t : task) : P t :=
  let fix children (ps : list task) : Forall P ps :=
    match ps with
    | [] => @List.Forall_nil _ P
    | p :: ps' =>
        @List.Forall_cons _ P p ps' (task_children_ind p) (children ps')
    end in
  match t with
  | Ret v => HRet v
  | Throw e => HThrow e
  | Never => HNever
  | Get k => HGet k (fun s => task_children_ind (k s))
  | Put s k => HPut s k (task_children_ind k)
  | Fetch u k => HFetch u k (fun r => task_children_ind (k r))
  | Waiting r k => HWaiting r k (fun r' => task_children_ind (k r'))
  | AllSettled ps k =>
      HAllSettled ps k (children ps) (fun rs => task_children_ind (k rs))
  end.
End TaskInd.

(** ** importer.js: listing the registry and the patched [require] *)

(** One element of the array [listVirtualModules()] returns. *)
Record ModuleInfo := {
  info_name : option string;
  info_path : string;
  loaded : bool
}.

(** [listVirtualModules()].  The entries come in the order of
    [map_to_list], which need not be the insertion order of the [Map]:
    what is proved of the list does not depend on its order. *)
Definition listVirtualModules (s : state) : list ModuleInfo :=
  map (fun entry =>
         {| info_name := fst entry;
            info_path := snd entry;
            loaded := bool_decide (is_Some (require_cache s !! snd entry)) |})
      (map_to_list (virtualModules s)).

(** [Module.prototype.require] as patched: the request it hands on to the
    original [require]. *)
Definition patchedRequire (s : state) (moduleName : string) : string :=
  match virtualModules s !! Some moduleName with
  | Some path => path
  | None => moduleName
  end.

(** ** cli.js: formatting *)

(** [formatModuleList(modules)] *)
Definition formatModuleList (modules : list ModuleInfo) : string :=
  if (length modules =? 0)%nat then "No modules currently loaded."
  else
    JS.join (String "010" "")
      (map (fun m =>
              (if loaded m then "✓" else "✗") ++ " " ++ show (info_name m)
              ++ String "010" "   " ++ info_path m)
           modules).

(** ** Concrete platforms *)

Definition manifest (deps : list (string * string)) : PkgJson.t :=
  {| PkgJson.module := None; PkgJson.main := None;
     PkgJson.version := Some "1.0.0"; PkgJson.dependencies := deps |}.

(** A registry that serves two packages, [a] and [b], each depending on
    the other; every other URL answers 404. *)
Definition cyclic_get (earlier : list string) (u : string) (n : nat)
  : response :=
  if String.eqb u "https://unpkg.com/a@latest/package.json"
  then Response 200 "OK" "A"
  else if String.eqb u "https://unpkg.com/b@1.0.0/package.json"
  then Response 200 "OK" "B"
  else if String.eqb u "https://unpkg.com/a@1.0.0/index.js"
  then Response 200 "OK" "exports.a = 1"
  else if String.eqb u "https://unpkg.com/b@1.0.0/index.js"
  then Response 200 "OK" "exports.b = 2"
  else Response 404 "Not Found" "".

Definition cyclic_parse (text : string) : string + PkgJson.t :=
  if String.eqb text "A" then inr (manifest [("b", "^1.0.0")])
  else if String.eqb text "B" then inr (manifest [("a", "^1.0.0")])
  else inl "Unexpected token".

Definition cyclic_registry : Platform :=
  {| https_get := cyclic_get;
     JSON_parse := cyclic_parse;
     compile := fun _ _ => None;
     validRange := fun _ => true;
     YARN_REGISTRY := None |}.

(** The same registry, serving code that does not compile. *)
Definition broken_registry : Platform :=
  {| https_get := cyclic_get;
     JSON_parse := cyclic_parse;
     compile := fun _ _ => Some "Unexpected token";
     validRange := fun _ => true;
     YARN_REGISTRY := None |}.

(** No package is found. *)
Definition empty_registry : Platform :=
  {| https_get := fun _ _ _ => Response 404 "Not Found" "";
     JSON_parse := fun _ => inl "Unexpected end of JSON input";
     compile := fun _ _ => None;
     validRange := fun _ => true;
     YARN_REGISTRY := None |}.

(** A registry that serves [a], which depends on [b], but not [b]. *)
Definition partial_get (earlier : list string) (u : string) (n : nat)
  : response :=
  if String.eqb u "https://unpkg.com/a@latest/package.json"
  then Response 200 "OK" "A"
  else if String.eqb u "https://unpkg.com/a@1.0.0/index.js"
  then Response 200 "OK" "exports.a = 1"
  else Response 404 "Not Found" "".

Definition partial_registry : Platform :=
  {| https_get := partial_get;
     JSON_parse := cyclic_parse;
     compile := fun _ _ => None;
     validRange := fun _ => true;
     YARN_REGISTRY := None |}.

(** GitHub with one repository, [user/repo], whose default branch is
    [master]. *)
Definition github_get (earlier : list string) (u : string) (n : nat)
  : response :=
  if String.eqb u
       "https://raw.githubusercontent.com/user/repo/master/package.json"
  then Response 200 "OK" "M"
  else if String.eqb u
            "https://raw.githubusercontent.com/user/repo/master/index.js"
  then Response 200 "OK" "exports.x = 1"
  else Response 404 "Not Found" "".

Definition github_host : Platform :=
  {| https_get := github_get;
     JSON_parse := fun text =>
       if String.eqb text "M" then inr (manifest [])
       else inl "Unexpected token";
     compile := fun _ _ => None;
     validRange := fun _ => true;
     YARN_REGISTRY := None |}.

(** A process in which nothing was imported yet. *)
Definition fresh_process : world := {| store := initial_state; requests := [] |}.

(** The turns of a schedule that always runs the first ready
    continuation. *)
Definition first_ready (turns : nat) : list nat := repeat 0 turns.

(** * Properties *)

(** ** Splitting strings *)

Lemma split_not_nil sep s : JS.split sep s <> [].
Proof. destruct s as [|c s]; simpl; [done|]. destruct (Ascii.eqb c sep); [done|]. by destruct (JS.split sep s). Qed.

Lemma split_without sep a : JS.includes sep a = false -> JS.split sep a = [a].
Proof.
  induction a as [|c a IH]; simpl; [done|].
  intros [Hc Ha]%orb_false_iff. rewrite Hc, (IH Ha). done.
Qed.

Lemma split_at_first sep a rest :
  JS.includes sep a = false ->
  JS.split sep (a ++ String sep rest) = a :: JS.split sep rest.
Proof.
  induction a as [|c a IH]; simpl.
  - intros _. by rewrite Ascii.eqb_refl.
  - intros [Hc Ha]%orb_false_iff. rewrite Hc, (IH Ha). done.
Qed.

Lemma join_split sep s : JS.join (String sep "") (JS.split sep s) = s.
Proof.
  induction s as [|c s IH]; simpl; [done|].
  destruct (Ascii.eqb_spec c sep) as [->|Hne].
  - pose proof (split_not_nil sep s) as Hn.
    destruct (JS.split sep s) as [|h t] eqn:E; [done|].
    simpl in *. by rewrite IH.
  - pose proof (split_not_nil sep s) as Hn.
    destruct (JS.split sep s) as [|h t] eqn:E; [done|].
    destruct t; simpl in *; by rewrite <- IH.
Qed.

Lemma startsWith_without c a : JS.includes c a = false -> JS.startsWith (String c "") a = false.
Proof. destruct a as [|b a]; simpl; [done|]. intros [Hc _]%orb_false_iff. rewrite Ascii.eqb_sym. by rewrite Hc. Qed.

Lemma strip_latest : JS.strip_range_operators "latest" = "latest".
Proof. reflexivity. Qed.

Lemma parse_without_at a :
  JS.includes "@" a = false ->
  parsePackageString a = {| name := a; version := "latest"; source := "npm"; originalName := a; alias := None |}.
Proof. intros Ha. unfold parsePackageString. rewrite (split_without _ _ Ha). reflexivity. Qed.

Lemma parse_at a rest :
  JS.includes "@" a = false -> is_registry_prefixed rest = false ->
  parsePackageString (a ++ "@" ++ rest) =
    {| name := a; version := if JS.truthy rest then JS.strip_range_operators rest else "latest";
       source := "npm"; originalName := a ++ "@" ++ rest; alias := None |}.
Proof.
  intros Ha Hp. unfold parsePackageString.
  change (a ++ "@" ++ rest) with (a ++ String "@" rest).
  rewrite (split_at_first _ _ _ Ha). cbn [List.hd List.tl].
  change "@" with (String "@"%char "") at 1 2 3 4. rewrite join_split.
  destruct (JS.truthy rest) eqn:Ht; cbn [negb]; [|done].
  rewrite Hp, (startsWith_without _ _ Ha). cbn [version name source originalName alias].
  destruct (String.eqb_spec rest "latest") as [->|Hne]; [done|]. done.
Qed.

(** ** URL encoding and retries *)

Lemma encode_app a b : JS.encodeURIComponent (a ++ b) = JS.encodeURIComponent a ++ JS.encodeURIComponent b.
Proof. induction a as [|c a IH]; simpl; [done|]. destruct (JS.unreserved c); simpl; by rewrite IH. Qed.

Lemma encode_no_slash s : JS.includes "/" (JS.encodeURIComponent s) = false.
Proof.
  induction s as [|c s IH]; simpl; [done|].
  destruct (JS.unreserved c) eqn:E; simpl; rewrite IH.
  - destruct c as [[] [] [] [] [] [] [] []]; vm_compute in E |- *; congruence.
  - destruct c as [[] [] [] [] [] [] [] []]; vm_compute in E |- *; congruence.
Qed.

Lemma encodedName_scoped_eq scope pkg :
  encodedName ("@" ++ scope ++ "/" ++ pkg) = "@" ++ JS.encodeURIComponent scope ++ "%2F" ++ JS.encodeURIComponent pkg.
Proof.
  unfold encodedName.
  change (JS.startsWith "@" ("@" ++ scope ++ "/" ++ pkg)) with true.
  change (JS.slice1 ("@" ++ scope ++ "/" ++ pkg)) with (scope ++ "/" ++ pkg).
  cbn iota. by rewrite !encode_app.
Qed.

Section Retry.
Variables (url_ : string) (o : options) (get : nat -> response).

Lemma attempt_success n left delay code msg body :
  get n = Response code msg body -> (code < 400)%Z ->
  attempt url_ o get n left delay = {| delays := []; settled_with := inl body |}.
Proof.
  intros Hg Hc. destruct left; simpl; rewrite Hg; destruct (Z.leb_spec 400 code); try lia; done.
Qed.

Lemma attempt_retry n left delay status :
  failure_status (get n) = Some status ->
  attempt url_ o get n (S (S left)) delay =
    let later := attempt url_ o get (S n) (S left) (Z.min (delay * backoffFactor o) (maxDelay o)) in
    {| delays := delay :: delays later; settled_with := settled_with later |}.
Proof.
  intros Hf. cbn [attempt]. destruct (get n) as [code msg body| |m]; simpl in Hf; try done.
  destruct (400 <=? code)%Z; done.
Qed.

Lemma attempt_last n left delay status :
  (left <= 1)%nat -> failure_status (get n) = Some status ->
  exists m, attempt url_ o get n left delay = {| delays := []; settled_with := inr (NetworkError m status url_) |}.
Proof.
  intros Hl Hf. assert (left = 0%nat \/ left = 1%nat) as [-> | ->] by lia;
  cbn [attempt]; destruct (get n) as [code msg body| |m]; simpl in Hf; try (destruct (400 <=? code)%Z); simplify_eq; eauto.
Qed.

Lemma attempt_exhausted left n delay :
  (forall i, (n <= i < n + Nat.max 1 left)%nat -> is_Some (failure_status (get i))) ->
  exists m status,
    settled_with (attempt url_ o get n left delay) = inr (NetworkError m status url_)
    /\ failure_status (get (n + Nat.max 1 left - 1)) = Some status
    /\ length (delays (attempt url_ o get n left delay)) = (Nat.max 1 left - 1)%nat.
Proof.
  revert n delay. induction left as [|left IH]; intros n delay Hall.
  - destruct (Hall n) as [status Hs]; [lia|].
    destruct (attempt_last n 0 delay status) as [m Hm]; [lia|done|].
    exists m, status. rewrite Hm. simpl. replace (n + 1 - 1)%nat with n by lia. done.
  - destruct (Hall n) as [status Hs]; [lia|].
    destruct left as [|left].
    + destruct (attempt_last n 1 delay status) as [m Hm]; [lia|done|].
      exists m, status. rewrite Hm. simpl. replace (n + 1 - 1)%nat with n by lia. done.
    + rewrite (attempt_retry _ _ _ _ Hs). cbn zeta. cbn [settled_with delays].
      destruct (IH (S n) (Z.min (delay * backoffFactor o) (maxDelay o))) as (m & st & H1 & H2 & H3).
      { intros i Hi. apply Hall. lia. }
      exists m, st. split; [done|]. split.
      * rewrite <- H2. do 2 f_equal. lia.
      * cbn [length]. rewrite H3. lia.
Qed.
End Retry.

Lemma slices_upto_elem {A} n : forall xs : list A,
  Forall (fun chunk => forall m, m ∈ chunk -> m ∈ xs) (slices_upto n xs).
Proof.
  induction n as [|n IH]; intros xs; [by constructor|].
  destruct xs as [|x xs]; [by constructor|]. cbn [slices_upto].
  constructor.
  - intros m Hm. by apply (subseteq_take MAX_CONCURRENT_DOWNLOADS).
  - eapply Forall_impl; [apply IH|]. intros chunk Hc m Hm.
    apply (subseteq_drop MAX_CONCURRENT_DOWNLOADS). by apply Hc.
Qed.

(** ** The event loop *)

Section EventLoop.
Context `{Platform}.

Lemma advance_AllSettled ps k w :
  advance (AllSettled ps k) w
  = (fst (advance_all ps w), AllSettled (snd (advance_all ps w)) k).
Proof.
  cbn [advance].
  change (fix start (ps0 : list task) (w0 : world) {struct ps0}
            : world * list task := _) with advance_all.
  by destruct (advance_all ps w).
Qed.

Lemma ready_AllSettled ps k :
  ready (AllSettled ps k) = if forallb is_settled ps then 1 else ready_all ps.
Proof. reflexivity. Qed.

Lemma resume_AllSettled i ps k w :
  resume i (AllSettled ps k) w =
    if forallb is_settled ps then advance (k (map result_of ps)) w
    else (fst (resume_in i ps w), AllSettled (snd (resume_in i ps w)) k).
Proof.
  cbn [resume]. destruct (forallb is_settled ps); [done|].
  change (fix pick (i0 : nat) (ps0 : list task) (w0 : world) {struct ps0}
            : world * list task := _) with resume_in.
  by destruct (resume_in i ps w).
Qed.

Lemma suspended_AllSettled ps k :
  suspended (AllSettled ps k) = forallb suspended ps.
Proof. reflexivity. Qed.

Lemma awaits_never_AllSettled ps k :
  awaits_never (AllSettled ps k) = existsb awaits_never ps.
Proof. reflexivity. Qed.

(** *** Suspended forms *)

Lemma advance_all_suspended ps :
  Forall (fun p => forall w, suspended (snd (advance p w)) = true) ps ->
  forall w, forallb suspended (snd (advance_all ps w)) = true.
Proof.
  induction 1 as [|p ps Hp _ IH]; intros w; [done|].
  cbn [advance_all]. specialize (Hp w). destruct (advance p w) as [w1 p'].
  specialize (IH w1). destruct (advance_all ps w1) as [w2 ps'].
  simpl in *. by rewrite Hp, IH.
Qed.

Lemma advance_suspended t : forall w, suspended (snd (advance t w)) = true.
Proof.
  induction t as [| | |k IH|s k IH|u k IH|r k IH|ps k IHps IHk]
    using task_children_ind; intros w; try done.
  - cbn [advance]. apply IH.
  - cbn [advance]. apply IH.
  - rewrite advance_AllSettled. cbn [snd]. rewrite suspended_AllSettled.
    by apply advance_all_suspended.
Qed.

Lemma resume_in_suspended ps :
  Forall (fun p => forall i w, suspended p = true ->
                     suspended (snd (resume i p w)) = true) ps ->
  forall i w, forallb suspended ps = true ->
    forallb suspended (snd (resume_in i ps w)) = true.
Proof.
  induction 1 as [|p ps Hp _ IH]; intros i w Hs; [done|].
  cbn [forallb] in Hs. apply andb_true_iff in Hs as [Hs1 Hs2].
  cbn [resume_in]. destruct (i <? ready p)%nat.
  - specialize (Hp i w Hs1). destruct (resume i p w) as [w' p']. simpl in *.
    by rewrite Hp, Hs2.
  - specialize (IH (i - ready p)%nat w Hs2).
    destruct (resume_in (i - ready p) ps w) as [w' ps']. simpl in *.
    by rewrite Hs1, IH.
Qed.

Lemma resume_suspended t :
  forall i w, suspended t = true -> suspended (snd (resume i t w)) = true.
Proof.
  induction t as [| | |k IH|s k IH|u k IH|r k IH|ps k IHps IHk]
    using task_children_ind; intros i w Hs; try done.
  - cbn [resume]. apply advance_suspended.
  - rewrite resume_AllSettled. destruct (forallb is_settled ps).
    + apply advance_suspended.
    + cbn [snd]. rewrite suspended_AllSettled in *.
      by apply resume_in_suspended.
Qed.

Lemma step_suspended c cfg :
  suspended (snd cfg) = true -> suspended (snd (step c cfg)) = true.
Proof.
  intros Hs. unfold step. destruct (ready (snd cfg)); [done|].
  by apply resume_suspended.
Qed.

Lemma run_suspended sched : forall cfg,
  suspended (snd cfg) = true -> suspended (snd (run sched cfg)) = true.
Proof.
  induction sched as [|c sched IH]; intros cfg Hs; [done|].
  cbn [run]. apply IH. by apply step_suspended.
Qed.

(** A suspended task that cannot run is settled, or waits for a call
    that was cut off. *)
Lemma quiescent_settled_or_never t :
  suspended t = true -> ready t = 0 ->
  is_settled t = true \/ awaits_never t = true.
Proof.
  induction t as [| | |k IH|s k IH|u k IH|r k IH|ps k IHps IHk]
    using task_children_ind; intros Hs Hr; try done; try (by left); try (by right).
  right. rewrite ready_AllSettled in Hr. rewrite suspended_AllSettled in Hs.
  rewrite awaits_never_AllSettled.
  destruct (forallb is_settled ps) eqn:Hall; [done|].
  clear IHk. induction IHps as [|p ps Hp _ IH]; [done|].
  cbn [forallb ready_all existsb] in *.
  apply andb_true_iff in Hs as [Hs1 Hs2].
  assert (ready p = 0) as Hrp by (clear -Hr; lia).
  destruct (Hp Hs1 Hrp) as [Hset|Hnev].
  - rewrite Hset in Hall. cbn in Hall.
    rewrite IH; [by rewrite orb_true_r|done|done|lia].
  - by rewrite Hnev.
Qed.

(** *** Termination *)

Lemma all_terminate_cons p : terminates p -> forall ps, all_terminate ps -> all_terminate (p :: ps).
Proof.
  induction 1 as [p _ IHp]. intros ps Hps.
  induction Hps as [ps Hps IHps].
  constructor. intros i w Hi. cbn [ready_all resume_in] in *.
  destruct (Nat.ltb_spec i (ready p)).
  - specialize (IHp i w H0 ps (all_terminate_intro _ Hps)).
    by destruct (resume i p w).
  - assert (i - ready p < ready_all ps)%nat as Hlt by lia.
    specialize (IHps (i - ready p)%nat w Hlt).
    by destruct (resume_in (i - ready p) ps w).
Qed.

Lemma all_terminate_Forall ps : Forall terminates ps -> all_terminate ps.
Proof.
  induction 1 as [|p ps Hp _ IH].
  - constructor. cbn. lia.
  - by apply all_terminate_cons.
Qed.

Lemma terminates_AllSettled ps k :
  all_terminate ps -> (forall rs w, terminates (snd (advance (k rs) w))) ->
  terminates (AllSettled ps k).
Proof.
  intros Hps Hk. induction Hps as [ps _ IH].
  constructor. intros i w Hi.
  rewrite resume_AllSettled. rewrite ready_AllSettled in Hi.
  destruct (forallb is_settled ps); [apply Hk|].
  cbn [snd]. by apply IH.
Qed.

Lemma terminates_advance_all ps :
  Forall (fun p => forall w, terminates (snd (advance p w))) ps ->
  forall w, Forall terminates (snd (advance_all ps w)).
Proof.
  induction 1 as [|p ps Hp _ IH]; intros w; [by constructor|].
  cbn [advance_all]. specialize (Hp w). destruct (advance p w) as [w1 p'].
  specialize (IH w1). destruct (advance_all ps w1) as [w2 ps'].
  by constructor.
Qed.

Lemma terminates_task t : terminates t /\ forall w, terminates (snd (advance t w)).
Proof.
  induction t as [| | |k IH|s k IH|u k IH|r k IH|ps k IHps IHk]
    using task_children_ind.
  - split; [|intros w]; constructor; cbn; lia.
  - split; [|intros w]; constructor; cbn; lia.
  - split; [|intros w]; constructor; cbn; lia.
  - split; [constructor; cbn; lia|]. intros w. cbn [advance]. apply IH.
  - split; [constructor; cbn; lia|]. intros w. cbn [advance]. apply IH.
  - split; [constructor; cbn; lia|]. intros w. cbn [advance snd].
    constructor. intros i w' _. cbn [resume]. apply IH.
  - assert (terminates (Waiting r k)) as Hsn.
    { constructor. intros i w' _. cbn [resume]. apply IH. }
    split; [done|]. by intros w.
  - split.
    + apply terminates_AllSettled; [|intros; apply IHk].
      apply all_terminate_Forall. eapply Forall_impl; [exact IHps|]. by intros p [? _].
    + intros w. rewrite advance_AllSettled. cbn [snd].
      apply terminates_AllSettled; [|intros; apply IHk].
      apply all_terminate_Forall, terminates_advance_all.
      eapply Forall_impl; [exact IHps|]. by intros p [_ ?].
Qed.

Lemma terminates_halts t : terminates t -> forall w, halts (w, t).
Proof.
  induction 1 as [t _ IH]. intros w.
  destruct (ready t) as [|n] eqn:Hr; [by apply halts_now|].
  apply halts_later. intros c. unfold step. cbn [fst snd]. rewrite Hr.
  assert (c mod S n < S n)%nat as Hlt by (apply Nat.mod_upper_bound; lia).
  specialize (IH (c mod S n)%nat w Hlt (fst (resume (c mod S n) t w))).
  by destruct (resume (c mod S n) t w).
Qed.

Lemma halts_all cfg : halts cfg.
Proof. destruct cfg as [w t]. apply terminates_halts, terminates_task. Qed.

(** Along every infinite schedule the event loop runs dry. *)
Lemma halts_schedule cfg :
  halts cfg ->
  forall choices : nat -> nat,
  exists n, ready (snd (run (map choices (seq 0 n)) cfg)) = 0.
Proof.
  induction 1 as [cfg Hq|cfg _ IH]; intros choices.
  - by exists 0%nat.
  - destruct (IH (choices 0%nat) (fun i => choices (S i))) as [n Hn].
    exists (S n). cbn [seq map run].
    by rewrite <- seq_shift, map_map.
Qed.
End EventLoop.

(** ** The program logic *)

Section Logic.
Context `{Platform}.
Variable R : state -> state -> Prop.
Context `{!PreOrder R}.

Abbreviation top := (fun (_ : state) (_ : result) => True).

Lemma wp_AllSettled Q cur ps k :
  wp R Q cur (AllSettled ps k) <->
  (forall cur', R cur cur' -> Forall (wp R top cur') ps)
  /\ (forall rs cur', R cur cur' -> wp R Q cur' (k rs)).
Proof.
  cbn [wp]. apply and_iff_compat_r.
  apply forall_proper; intros cur'. apply forall_proper; intros _.
  induction ps as [|p ps IH]; [by rewrite Forall_nil|].
  by rewrite Forall_cons, IH.
Qed.

Lemma wp_mono Q Q' t :
  (forall s r, Q s r -> Q' s r) ->
  forall cur, wp R Q cur t -> wp R Q' cur t.
Proof.
  intros HQ. induction t as [| | |k IH|s k IH|u k IH|r k IH|ps k IH];
    intros cur; cbn [wp].
  - apply HQ.
  - apply HQ.
  - done.
  - apply IH.
  - intros [? ?]. split; [done|]. by apply IH.
  - intros Hk r cur' Hr. by apply IH, Hk.
  - intros Hk cur' Hr. by apply IH, Hk.
  - intros [Hps Hk]. split; [done|]. intros rs cur' Hr. by apply IH, Hk.
Qed.

Lemma wp_then Q t k :
  forall cur,
  wp R (fun s r => wp R Q s (k r)) cur t -> wp R Q cur (then_ t k).
Proof.
  induction t as [| | |g IH|s g IH|u g IH|r g IH|ps g IH];
    intros cur; cbn [wp then_].
  - done.
  - done.
  - done.
  - apply IH.
  - intros [? ?]. split; [done|]. by apply IH.
  - intros Hk r cur' Hr. by apply IH, Hk.
  - intros Hk cur' Hr. by apply IH, Hk.
  - intros [Hps Hk]. split; [done|]. intros rs cur' Hr. by apply IH, Hk.
Qed.

Lemma wp_stable t cur cur' :
  head_suspended t -> R cur cur' -> wp R top cur t -> wp R top cur' t.
Proof.
  destruct t as [| | |k|s k|u k|r k|ps k]; try done; intros _ Hr.
  - cbn [wp]. intros Hk cur2 Hr2. apply Hk. by etrans.
  - rewrite !wp_AllSettled. intros [Hps Hk].
    split; intros; [apply Hps|apply Hk]; by etrans.
Qed.

Lemma advance_head t : forall w, head_suspended (snd (advance t w)).
Proof.
  induction t as [| | |k IH|s k IH|u k IH|r k IH|ps k IH]; intros w.
  - done.
  - done.
  - done.
  - cbn [advance]. apply IH.
  - cbn [advance]. apply IH.
  - done.
  - done.
  - by rewrite advance_AllSettled.
Qed.

Lemma resume_head i t w :
  head_suspended (snd (resume i t w)) \/ resume i t w = (w, t).
Proof.
  destruct t as [| | |k|s k|u k|r k|ps k]; try (by right).
  - left. cbn [resume]. apply advance_head.
  - left. rewrite resume_AllSettled. destruct (forallb is_settled ps); [|done].
    apply advance_head.
Qed.

Lemma advance_all_sound ps :
  Forall (fun p => forall w, wp R top (store w) p ->
            R (store w) (store (fst (advance p w)))
            /\ wp R top (store (fst (advance p w))) (snd (advance p w))) ps ->
  forall w,
  (forall cur', R (store w) cur' -> Forall (wp R top cur') ps) ->
  R (store w) (store (fst (advance_all ps w)))
  /\ (forall cur', R (store (fst (advance_all ps w))) cur' ->
        Forall (wp R top cur') (snd (advance_all ps w))).
Proof.
  induction 1 as [|p ps Hp _ IH]; intros w Hall.
  - cbn. split; [done|]. by constructor.
  - cbn [advance_all].
    destruct (Hp w) as [Hr1 Hw1].
    { specialize (Hall (store w) ltac:(done)). by apply Forall_cons in Hall as [? _]. }
    pose proof (advance_head p w) as Hhead.
    destruct (advance p w) as [w1 p']. cbn [fst snd] in *.
    destruct (IH w1) as [Hr2 Hw2].
    { intros cur' Hr. assert (R (store w) cur') as Hr' by (by etrans).
      specialize (Hall cur' Hr'). by apply Forall_cons in Hall as [_ ?]. }
    destruct (advance_all ps w1) as [w2 ps']. cbn [fst snd] in *.
    split; [by etrans|]. intros cur' Hr. constructor; [|by apply Hw2].
    eapply wp_stable; [done| |exact Hw1]. by etrans.
Qed.

Lemma advance_sound t : forall Q w,
  wp R Q (store w) t ->
  R (store w) (store (fst (advance t w)))
  /\ wp R Q (store (fst (advance t w))) (snd (advance t w)).
Proof.
  induction t as [| | |k IH|s k IH|u k IH|r k IH|ps k IHps IHk]
    using task_children_ind; intros Q w Hwp; try (by split).
  - cbn [advance]. by apply IH.
  - cbn [advance]. destruct Hwp as [Hr Hk].
    destruct (IH Q {| store := s; requests := requests w |} Hk) as [Hr' Hwp'].
    split; [|done]. by etrans.
  - cbn [advance fst snd store]. split; [done|]. cbn [wp] in *. auto.
  - rewrite advance_AllSettled. cbn [fst snd].
    apply wp_AllSettled in Hwp as [Hps Hk].
    destruct (advance_all_sound ps) with (w := w) as [Hr Hps']; [|done|].
    { eapply Forall_impl; [exact IHps|]. intros p Hp w'. apply Hp. }
    split; [done|]. apply wp_AllSettled. split; [done|].
    intros rs cur' Hr'. apply Hk. by etrans.
Qed.

Lemma resume_in_sound ps :
  Forall (fun p => forall i w, wp R top (store w) p ->
            R (store w) (store (fst (resume i p w)))
            /\ wp R top (store (fst (resume i p w))) (snd (resume i p w))) ps ->
  forall i w,
  (forall cur', R (store w) cur' -> Forall (wp R top cur') ps) ->
  R (store w) (store (fst (resume_in i ps w)))
  /\ (forall cur', R (store (fst (resume_in i ps w))) cur' ->
        Forall (wp R top cur') (snd (resume_in i ps w))).
Proof.
  induction 1 as [|p ps Hp _ IH]; intros i w Hall.
  - cbn. split; [done|]. by constructor.
  - cbn [resume_in]. destruct (i <? ready p)%nat.
    + destruct (Hp i w) as [Hr1 Hw1].
      { specialize (Hall (store w) ltac:(done)). by apply Forall_cons in Hall as [? _]. }
      pose proof (resume_head i p w) as Hhead.
      destruct (resume i p w) as [w1 p']. cbn [fst snd] in *.
      split; [done|]. intros cur' Hr.
      assert (R (store w) cur') as Hr' by (by etrans).
      specialize (Hall cur' Hr'). apply Forall_cons in Hall as [Hp0 Hps].
      constructor; [|done].
      destruct Hhead as [Hhead|Heq].
      * eapply wp_stable; [done| |exact Hw1]. done.
      * by simplify_eq.
    + destruct (IH (i - ready p)%nat w) as [Hr2 Hw2].
      { intros cur' Hr. specialize (Hall cur' Hr). by apply Forall_cons in Hall as [_ ?]. }
      destruct (resume_in (i - ready p) ps w) as [w2 ps']. cbn [fst snd] in *.
      split; [done|]. intros cur' Hr. constructor; [|by apply Hw2].
      assert (R (store w) cur') as Hr' by (by etrans).
      specialize (Hall cur' Hr'). by apply Forall_cons in Hall as [? _].
Qed.

Lemma resume_sound t : forall Q i w,
  wp R Q (store w) t ->
  R (store w) (store (fst (resume i t w)))
  /\ wp R Q (store (fst (resume i t w))) (snd (resume i t w)).
Proof.
  induction t as [| | |k IH|s k IH|u k IH|r k IH|ps k IHps IHk]
    using task_children_ind; intros Q i w Hwp; try (by split).
  - cbn [resume]. apply advance_sound. cbn [wp] in Hwp. by apply Hwp.
  - rewrite resume_AllSettled. apply wp_AllSettled in Hwp as [Hps Hk].
    destruct (forallb is_settled ps).
    + apply advance_sound. by apply Hk.
    + cbn [fst snd]. destruct (resume_in_sound ps) with (i := i) (w := w) as [Hr Hps']; [|done|].
      { eapply Forall_impl; [exact IHps|]. intros p Hp i' w'. apply Hp. }
      split; [done|]. apply wp_AllSettled. split; [done|].
      intros rs cur' Hr'. apply Hk. by etrans.
Qed.

Lemma step_sound Q c cfg :
  wp R Q (store (fst cfg)) (snd cfg) ->
  R (store (fst cfg)) (store (fst (step c cfg)))
  /\ wp R Q (store (fst (step c cfg))) (snd (step c cfg)).
Proof.
  intros Hwp. unfold step. destruct (ready (snd cfg)); [by split|].
  by apply resume_sound.
Qed.

Lemma run_sound Q sched : forall cfg,
  wp R Q (store (fst cfg)) (snd cfg) ->
  R (store (fst cfg)) (store (fst (run sched cfg)))
  /\ wp R Q (store (fst (run sched cfg))) (snd (run sched cfg)).
Proof.
  induction sched as [|c sched IH]; intros cfg Hwp; [by split|].
  cbn [run]. destruct (step_sound Q c cfg Hwp) as [Hr Hwp'].
  destruct (IH _ Hwp') as [Hr' Hwp'']. split; [by etrans|done].
Qed.

(** Every execution of a call of [t]: what it settles with, and when. *)
Lemma call_sound Q t w sched :
  wp R Q (store w) t ->
  let cfg := run sched (call t w) in
  R (store w) (store (fst cfg))
  /\ (forall v, snd cfg = Ret v -> Q (store (fst cfg)) (inl v))
  /\ (forall e, snd cfg = Throw e -> Q (store (fst cfg)) (inr e)).
Proof.
  intros Hwp cfg. destruct (advance_sound t Q w Hwp) as [Hr Hwp'].
  destruct (run_sound Q sched (call t w) Hwp') as [Hr' Hwp''].
  fold cfg in Hr', Hwp''. split; [by etrans|].
  split; intros x Hx; rewrite Hx in Hwp''; exact Hwp''.
Qed.
Lemma wp_bind Q t f cur :
  wp R (fun s r => match r with
                   | inl v => wp R Q s (f v)
                   | inr e => Q s (inr e)
                   end) cur t ->
  wp R Q cur (bind t f).
Proof.
  intros Ht. apply wp_then. eapply wp_mono; [|exact Ht].
  by intros s [v|e].
Qed.

Lemma wp_try_catch Q t h cur :
  wp R (fun s r => match r with
                   | inl v => Q s (inl v)
                   | inr e => wp R Q s (h e)
                   end) cur t ->
  wp R Q cur (try_catch t h).
Proof.
  intros Ht. apply wp_then. eapply wp_mono; [|exact Ht].
  by intros s [v|e].
Qed.

Lemma wp_modify Q f cur :
  R cur (f cur) -> Q (f cur) (inl VUndefined) -> wp R Q cur (modify f).
Proof. by split. Qed.

Lemma wp_modify_bind Q f k cur :
  R cur (f cur) -> wp R Q (f cur) k -> wp R Q cur (modify f ;; k).
Proof. intros Hr Hk. apply wp_bind. by apply wp_modify. Qed.

Lemma wp_try_finally Q t f cur :
  wp R (fun s r => R s (f s) /\ Q (f s) r) cur t ->
  wp R Q cur (try_finally t (modify f)).
Proof.
  intros Ht. apply wp_then. eapply wp_mono; [|exact Ht].
  intros s r [Hr HQ]. apply wp_modify_bind; [done|]. by destruct r.
Qed.

Lemma wp_await Q t cur :
  wp R (fun s r => forall s', R s s' -> Q s' r) cur t ->
  wp R Q cur (await t).
Proof.
  intros Ht. apply wp_then. eapply wp_mono; [|exact Ht].
  intros s r HQ. cbn [wp]. intros cur' Hr. specialize (HQ cur' Hr).
  by destruct r.
Qed.

Lemma wp_fetch Q u cur :
  (forall s r, R cur s -> Q s r) -> wp R Q cur (Fetch u settle).
Proof. intros HQ r cur' Hr. specialize (HQ cur' r Hr). by destruct r. Qed.

Lemma wp_fetchJson Q u cur :
  (forall s r, R cur s -> Q s r) -> wp R Q cur (fetchJson u).
Proof.
  intros HQ. apply wp_bind, wp_fetch. intros s [v|e] Hr; [|by apply HQ].
  destruct (JSON_parse (as_string v)); by apply HQ.
Qed.

Context (HR : allows R).

Ltac rstep0 :=
  eassumption + reflexivity + apply (allows_log R HR)
  + apply (allows_importing R HR) + apply (allows_cache R HR)
  + apply (allows_failed R HR) + apply (allows_require R HR).

Ltac rstep :=
  solve [ rstep0
        | etrans; [eassumption|]; rstep0
        | etrans; [rstep0|]; rstep0
        | etrans; [eassumption|]; etrans; [rstep0|]; rstep0 ].

Lemma wp_log_bind Q l m k cur :
  wp R Q (add_log l m cur) k -> wp R Q cur (log l m ;; k).
Proof. apply wp_modify_bind. rstep. Qed.

Lemma wp_log Q l m cur :
  Q (add_log l m cur) (inl VUndefined) -> wp R Q cur (log l m).
Proof. apply wp_modify. rstep. Qed.

Lemma wp_log_each Q lines : forall cur,
  Q (add_logs lines cur) (inl VUndefined) -> wp R Q cur (log_each lines).
Proof.
  induction lines as [|line lines IH]; intros cur HQ; [done|].
  cbn [log_each foldr]. apply wp_log_bind. by apply IH.
Qed.

(** [importModuleFiles]: a normal return is [undefined], and the module
    is then registered. *)
Lemma wp_importModuleFiles Q nm urlOrContent isContent cur :
  (forall s, R cur s -> is_Some (virtualModules s !! nm) ->
             Q s (inl VUndefined)) ->
  (forall s e, R cur s -> Q s (inr e)) ->
  wp R Q cur (importModuleFiles nm urlOrContent isContent).
Proof.
  intros Hok Herr. unfold importModuleFiles.
  assert (forall s e, R cur s ->
    wp R Q s (log ERROR ("Failed to load " ++ show nm ++ ": " ++ message_of e) ;; Throw e)) as Hh.
  { intros s e Hr. apply wp_log_bind. apply Herr. rstep. }
  assert (forall s v, R cur s ->
    wp R (fun s0 r => match r with inl v0 => Q s0 (inl v0) | inr e => wp R Q s0
      (log ERROR ("Failed to load " ++ show nm ++ ": " ++ message_of e) ;; Throw e) end) s
      (let modulePath := "/virtual_modules/" ++ show nm ++ ".js" in
       let mod_ := {| filename := modulePath; code := as_string v |} in
       match compile (as_string v) modulePath with
       | Some m => Throw (Error ("Failed to compile " ++ show nm ++ ": " ++ m))
       | None => modify (set_require_cache (insert modulePath mod_)) ;;
                 modify (set_virtualModules (insert nm modulePath))
       end)) as Hbody.
  { intros s v Hr. cbn zeta. destruct (compile _ _).
    - by apply Hh.
    - assert (is_Some
        (require_cache
           (set_require_cache
              (insert ("/virtual_modules/" ++ show nm ++ ".js")
                 {| filename := "/virtual_modules/" ++ show nm ++ ".js";
                    code := as_string v |}) s)
         !! ("/virtual_modules/" ++ show nm ++ ".js"))) as Hin.
      { cbn. by rewrite lookup_insert_eq. }
      apply wp_modify_bind; [rstep|].
      apply wp_modify; [by apply (allows_register R HR)|].
      apply Hok.
      + etrans; [exact Hr|]. etrans; [apply (allows_require R HR)|].
        by apply (allows_register R HR).
      + cbn. by rewrite lookup_insert_eq. }
  apply wp_try_catch, wp_bind. destruct isContent.
  - by apply Hbody.
  - apply wp_fetch. intros s [v|e] Hr; [by apply Hbody|by apply Hh].
Qed.

Lemma wp_dependencyChunks Q importOne chunks :
  (forall entry s, wp R (fun _ _ => True) s (importOne entry)) ->
  forall acc k s,
  (forall rs s', R s s' -> wp R Q s' (k rs)) ->
  wp R Q s (dependencyChunks importOne chunks acc k).
Proof.
  intros Hone. induction chunks as [|chunk chunks IH]; intros acc k s Hk.
  - by apply Hk.
  - cbn [dependencyChunks]. apply wp_AllSettled. split.
    + intros cur' _. apply Forall_map, Forall_forall. intros entry _. apply Hone.
    + intros rs cur' Hr. apply IH. intros rs' s' Hr'. apply Hk. by etrans.
Qed.

Lemma virtualModules_add_logs lines : forall s,
  virtualModules (add_logs lines s) = virtualModules s.
Proof. induction lines as [|l lines IH]; intros s; [done|]. cbn. by rewrite IH. Qed.

Lemma wp_importFromRegistry fuel : forall pkg source_ cur,
  wp R (imported R (name (parsePackageString pkg)) cur) cur
    (importFromRegistry fuel pkg source_).
Proof.
  induction fuel as [|fuel IH]; intros pkg source_ cur; [done|].
  cbn [importFromRegistry wp].
  set (nm := name (parsePackageString pkg)).
  set (ver := version (parsePackageString pkg)).
  case_bool_decide as Hloaded.
  { apply wp_log. repeat split; [by intros v [= <-]|done|done]. }
  case_bool_decide as Hflight.
  { apply wp_log. repeat split; [by intros v [= <-]|done|done]. }
  apply wp_log_bind, wp_modify_bind; [rstep|].
  apply wp_try_finally.
  eapply wp_mono with
    (Q := fun s r => match r with
                     | inl v => v = VUndefined
                                /\ (registry_stable R -> is_Some (virtualModules s !! Some nm))
                     | inr _ => True
                     end).
  { intros s r Hpost. split; [rstep|]. repeat split.
    - intros v ->. by destruct Hpost.
    - intros _. cbn. apply not_elem_of_difference. right. by apply elem_of_singleton.
    - intros Hst _ [v ->]. cbn. destruct Hpost as [_ Hreg]. by apply Hreg. }
  apply wp_try_catch.
  eapply wp_mono with
    (Q := fun s r => match r with
                     | inl v => v = VUndefined
                                /\ (registry_stable R -> is_Some (virtualModules s !! Some nm))
                     | inr _ => True
                     end).
  { intros s [v|e] Hpost; [done|].
    apply wp_log_bind, wp_modify_bind; [rstep|]. done. }
  apply wp_bind.
  match goal with |- wp _ ?Q0 _ _ => set (Qtail := Q0) end.
  assert (forall s v, Qtail s (inl v)) as Htail.
  { intros s v. subst Qtail. cbn beta iota.
    apply wp_dependencyChunks.
    - intros entry s0. apply wp_try_catch, wp_bind, wp_await.
      eapply wp_mono; [|apply IH]. intros s1 r _ s2 _. destruct r as [v'|e]; [exact I|]. cbn beta iota.
      apply wp_log_bind, wp_modify_bind; [rstep|]. exact I.
    - intros rs s1 _. apply wp_bind, wp_await, wp_importModuleFiles.
      + intros s2 _ Hreg s3 Hr3. apply wp_log_bind.
        destruct (0 <? length _)%nat.
        * apply wp_log_bind, wp_log_each. split; [done|]. intros Hst.
          rewrite virtualModules_add_logs. cbn. by apply (Hst s2).
        * split; [done|]. intros Hst. cbn. by apply (Hst s2).
      + by intros. }
  cbn [wp]. destruct (packageMetadataCache _ !! _); [apply Htail|].
  apply wp_bind, wp_try_catch, wp_await, wp_fetchJson.
  intros s [v|e] _ s' _.
  - apply wp_modify_bind; [rstep|]. apply Htail.
  - apply wp_await, wp_fetchJson. intros s2 [v|e2] _ s3 _; [|by subst Qtail].
    apply wp_modify_bind; [rstep|]. apply Htail.
Qed.

Lemma wp_tryBranches Q owner_ nm k branches : forall error_ s,
  (forall content err s', wp R Q s' (k content err)) ->
  wp R Q s (tryBranches owner_ nm branches error_ k).
Proof.
  induction branches as [|branch branches IH]; intros error_ s Hk; [apply Hk|].
  cbn [tryBranches]. apply wp_then, wp_bind, wp_await, wp_fetchJson.
  intros s1 [v|e] _ s2 _.
  - apply wp_fetch. intros s3 [content|err] _; [apply Hk|by apply IH].
  - by apply IH.
Qed.

Lemma wp_importFromGitHub repo cur :
  wp R returns_undefined cur (importFromGitHub repo).
Proof.
  unfold importFromGitHub. cbn [wp]. case_bool_decide.
  { apply wp_log. by intros v [= <-]. }
  apply wp_log_bind, wp_try_catch, wp_tryBranches.
  intros content err s.
  assert (wp R (fun s0 r => match r with
            | inl v => returns_undefined s0 (inl v)
            | inr e => wp R returns_undefined s0
                (log FAIL ("Failed to import " ++ show (nth_error (JS.split "/" (JS.remove_first "github:" repo)) 1)
                           ++ " from GitHub: " ++ message_of e) ;;
                 modify (set_failedImports
                   (entries_set (nth_error (JS.split "/" (JS.remove_first "github:" repo)) 1) (message_of e))) ;;
                 Throw e)
            end) s
           (Throw (default (Error "Failed to fetch repository content") err))) as Hthrow.
  { cbn [wp]. apply wp_log_bind, wp_modify_bind; [rstep|]. by intros v [=]. }
  destruct content as [c|]; [|exact Hthrow].
  destruct (JS.truthy c); [|exact Hthrow].
  apply wp_bind, wp_await, wp_importModuleFiles.
  - intros s1 _ _ s2 _. apply wp_log. by intros v [= <-].
  - intros s1 e _ s2 _. apply wp_log_bind, wp_modify_bind; [rstep|]. by intros v [=].
Qed.

Section Batch.
Variable modules : list string.
Hypothesis allows_result : forall m s, m ∈ modules ->
  R s (set_results
         (insert (moduleNameOf (parsePackageString m)) VUndefined) s).
Hypothesis allows_reset : forall s, R s (set_results (fun _ => ∅) s).

Lemma wp_importMember fuel m cur :
  m ∈ modules -> wp R (is_outcome_of m) cur (importMember fuel m).
Proof.
  intros Hm. unfold importMember.
  assert (forall t, wp R returns_undefined cur t ->
    wp R (fun s r => match r with
            | inl v => is_outcome_of m s (inl v)
            | inr e => wp R (is_outcome_of m) s
                         (Ret (VOutcome false m (Some (message_of e))))
            end) cur
      (imported_ <- await t ;;
       modify (set_results
                 (insert (moduleNameOf (parsePackageString m)) imported_)) ;;
       Ret (VOutcome true (moduleNameOf (parsePackageString m)) None))) as Hawait.
  { intros t Ht. apply wp_bind, wp_await. eapply wp_mono; [|exact Ht].
    intros s r Hr s' _. destruct r as [v|e].
    - rewrite (Hr v eq_refl). apply wp_modify_bind; [by apply allows_result|].
      by left.
    - right. by eexists. }
  apply wp_try_catch.
  destruct (_ || _); [|destruct (String.eqb _ "github")]; apply Hawait.
  - eapply wp_mono; [|apply wp_importFromRegistry]. by intros s r [? _].
  - apply wp_importFromGitHub.
  - eapply wp_mono; [|apply wp_importFromRegistry]. by intros s r [? _].
Qed.

Variable I : state -> Prop.
Hypothesis I_stable : forall a b, R a b -> I a -> I b.
Hypothesis I_reset : forall s, I (set_results (fun _ => ∅) s).

Lemma R_add_logs lines : forall s, R s (add_logs lines s).
Proof.
  induction lines as [|l lines IH]; intros s; [done|].
  cbn. etrans; [|apply IH]. rstep.
Qed.

Lemma wp_moduleChunks fuel k chunks : forall cur,
  I cur ->
  Forall (fun chunk => forall m, m ∈ chunk -> m ∈ modules) chunks ->
  (forall s, I s -> wp R (returns_results I) s k) ->
  wp R (returns_results I) cur (moduleChunks fuel chunks k).
Proof.
  induction chunks as [|chunk chunks IH]; intros cur HI Hin Hk; [by apply Hk|].
  apply Forall_cons in Hin as [Hchunk Hin].
  cbn [moduleChunks]. apply wp_AllSettled. split.
  - intros cur' _. apply Forall_map, Forall_forall. intros m Hm.
    eapply wp_mono; [|apply wp_importMember; by apply Hchunk]. done.
  - intros rs cur' Hr. apply wp_bind, wp_log_each. cbn beta iota.
    apply IH; [|done|done].
    apply (I_stable cur'); [apply R_add_logs|]. by apply (I_stable cur).
Qed.

Lemma wp_importModules fuel cur :
  wp R (returns_results I) cur (importModules fuel modules).
Proof.
  unfold importModules.
  apply wp_modify_bind; [done|]. apply wp_modify_bind; [rstep|].
  apply wp_moduleChunks.
  - eapply I_stable; [|apply I_reset]. rstep.
  - apply slices_upto_elem.
  - intros s HI. cbn [wp]. apply wp_bind.
    destruct (0 <? length _)%nat.
    + apply wp_log_bind, wp_log_each. split; [done|].
      eapply I_stable; [apply R_add_logs|].
      eapply I_stable; [|exact HI]. rstep.
    + by split.
Qed.
End Batch.
End Logic.

(** ** The relies used below *)

#[local] Instance any_change_preorder : PreOrder any_change.
Proof. by split. Qed.

#[local] Instance keeps_results_of_preorder modules :
  PreOrder (keeps_results_of modules).
Proof. split; unfold keeps_results_of; [by intros ?|intros ???; auto]. Qed.

#[local] Instance registry_grows_preorder : PreOrder registry_grows.
Proof. split; unfold registry_grows; [by intros ?|intros ???; auto]. Qed.

Lemma any_change_allows : allows any_change.
Proof. by split. Qed.

Lemma keeps_results_of_allows modules : allows (keeps_results_of modules).
Proof. split; intros; intros Hs; exact Hs. Qed.

Lemma registry_grows_allows : allows registry_grows.
Proof.
  split; try (intros; intros k Hk; exact Hk). intros nm s _ k. cbn.
  destruct (decide (nm = k)) as [->|Hne].
  - by rewrite lookup_insert_eq.
  - by rewrite lookup_insert_ne.
Qed.

Lemma registry_grows_stable : registry_stable registry_grows.
Proof. intros a b k Hab. apply Hab. Qed.

Section Executions.
Context `{Platform}.

Lemma run_quiescent schedule : forall cfg,
  ready (snd cfg) = 0 -> run schedule cfg = cfg.
Proof.
  induction schedule as [|c schedule IH]; intros cfg Hq; [done|].
  cbn [run]. unfold step. rewrite Hq. by apply IH.
Qed.

Lemma importModules_sound fuel modules w schedule :
  let cfg := run schedule (call (importModules fuel modules) w) in
  (forall e, snd cfg <> Throw e)
  /\ (forall v, snd cfg = Ret v ->
        v = VResults /\ results_of modules (store (fst cfg))).
Proof.
  intros cfg.
  destruct (call_sound (keeps_results_of modules)
              (returns_results (results_of modules))
              (importModules fuel modules) w schedule) as (_ & Hret & Hthrow).
  { apply wp_importModules with (modules := modules).
    - apply _.
    - apply keeps_results_of_allows.
    - intros m s Hm Hs key v. cbn. destruct (decide (moduleNameOf (parsePackageString m) = key)) as [<-|Hne].
      + rewrite lookup_insert_eq. intros [= <-]. split; [done|]. by exists m.
      + rewrite lookup_insert_ne by done. apply Hs.
    - intros s _ key v. cbn. by rewrite lookup_empty.
    - intros a b Hab. apply Hab.
    - intros s key v. cbn. by rewrite lookup_empty. }
  fold cfg in Hret, Hthrow. split.
  - intros e He. by destruct (Hthrow e He).
  - intros v Hv. destruct (Hret v Hv) as [[= ->] HI]. done.
Qed.

Lemma importMember_sound fuel m w schedule :
  let cfg := run schedule (call (importMember fuel m) w) in
  (forall e, snd cfg <> Throw e)
  /\ (forall v, snd cfg = Ret v ->
        v = VOutcome true (moduleNameOf (parsePackageString m)) None
        \/ exists message, v = VOutcome false m (Some message)).
Proof.
  intros cfg.
  destruct (call_sound any_change (is_outcome_of m)
              (importMember fuel m) w schedule) as (_ & Hret & Hthrow).
  { apply wp_importMember with (modules := [m]);
      first [ apply _ | apply any_change_allows
            | by apply list_elem_of_singleton | done ]. }
  fold cfg in Hret, Hthrow. split.
  - intros e He. by destruct (Hthrow e He) as [|[? ?]].
  - intros v Hv. destruct (Hret v Hv) as [[= ->]|[msg [= ->]]]; eauto.
Qed.

Lemma importModules_completes fuel modules w (choices : nat -> nat) :
  exists n,
    let cfg := run (map choices (seq 0 n))
                 (call (importModules fuel modules) w) in
    snd cfg = Ret VResults \/ awaits_never (snd cfg) = true.
Proof.
  destruct (halts_schedule (call (importModules fuel modules) w)
              (halts_all _) choices) as [n Hn].
  exists n. intros cfg. fold cfg in Hn.
  assert (suspended (snd cfg) = true) as Hs.
  { apply run_suspended, advance_suspended. }
  destruct (quiescent_settled_or_never _ Hs Hn) as [Hset|Hnev]; [|by right].
  left. destruct (importModules_sound fuel modules w (map choices (seq 0 n)))
    as [Hthrow Hret]. fold cfg in Hthrow, Hret.
  destruct (snd cfg) as [v|e| | | | | |] eqn:E; try done.
  - by destruct (Hret v eq_refl) as [-> _].
  - by destruct (Hthrow e).
Qed.
(** The synchronous outcomes of [importFromRegistry]. *)
Lemma call_importFromRegistry_loaded fuel pkg source_ w :
  is_Some (virtualModules (store w) !! Some (name (parsePackageString pkg))) ->
  call (importFromRegistry (S fuel) pkg source_) w
  = ({| store := add_log DEBUG
                   ("Module " ++ name (parsePackageString pkg)
                    ++ " already loaded") (store w);
        requests := requests w |}, Ret VUndefined).
Proof.
  intros Hl. unfold call. cbn [importFromRegistry advance].
  by rewrite bool_decide_eq_true_2.
Qed.

Lemma call_importFromRegistry_circular fuel pkg source_ w :
  virtualModules (store w) !! Some (name (parsePackageString pkg)) = None ->
  name (parsePackageString pkg) ∈ importingDependencies (store w) ->
  call (importFromRegistry (S fuel) pkg source_) w
  = ({| store := add_log WARN
                   ("Circular dependency detected for "
                    ++ name (parsePackageString pkg) ++ ", skipping")
                   (store w);
        requests := requests w |}, Ret VUndefined).
Proof.
  intros Hl Hf. unfold call. cbn [importFromRegistry advance].
  rewrite bool_decide_eq_false_2; [|rewrite Hl; by intros [? ?]].
  by rewrite bool_decide_eq_true_2.
Qed.

Lemma call_importFromRegistry_fetches fuel pkg source_ w :
  let nm := name (parsePackageString pkg) in
  let ver := version (parsePackageString pkg) in
  virtualModules (store w) !! Some nm = None ->
  nm ∉ importingDependencies (store w) ->
  packageMetadataCache (store w) !! (nm ++ "@" ++ ver) = None ->
  exists k,
    call (importFromRegistry (S fuel) pkg source_) w
    = ({| store :=
            set_importingDependencies (union {[nm]})
              (add_log PROGRESS
                 ("📦 Importing " ++ nm ++ "@" ++ ver ++ " from "
                  ++ JS.toUpperCase source_ ++ "...") (store w));
          requests := manifestUrl source_ nm ver :: requests w |},
       Waiting (fetch_result (requests w) (manifestUrl source_ nm ver)) k).
Proof.
  intros nm ver Hl Hf Hc. subst nm ver.
  unfold call. cbn [importFromRegistry advance].
  rewrite bool_decide_eq_false_2; [|rewrite Hl; by intros [? ?]].
  rewrite bool_decide_eq_false_2; [|done].
  unfold log, modify, bind, try_finally, try_catch, await, fetchJson.
  cbn [then_ advance store requests packageMetadataCache add_log
       set_importingDependencies].
  rewrite Hc. cbn [then_ advance store requests].
  eexists. reflexivity.
Qed.

Lemma importFromRegistry_sound fuel pkg source_ w schedule :
  let nm := name (parsePackageString pkg) in
  let cfg := run schedule (call (importFromRegistry fuel pkg source_) w) in
  (nm ∉ importingDependencies (store w)) ->
  is_settled (snd cfg) = true ->
  (nm ∉ importingDependencies (store (fst cfg)))
  /\ (forall v, snd cfg = Ret v ->
        v = VUndefined
        /\ is_Some (virtualModules (store (fst cfg)) !! Some nm)).
Proof.
  intros nm cfg Hfree Hsettled.
  destruct (call_sound registry_grows (imported registry_grows nm (store w))
              (importFromRegistry fuel pkg source_) w schedule)
    as (_ & Hret & Hthrow).
  { apply wp_importFromRegistry; [apply _|apply registry_grows_allows]. }
  fold cfg in Hret, Hthrow.
  destruct (snd cfg) as [v|e| | | | | |] eqn:E; try done.
  - destruct (Hret v eq_refl) as (Hv & Hfl & Hreg). split; [by apply Hfl|].
    intros v' [= <-]. split; [by apply Hv|].
    apply Hreg; [apply registry_grows_stable|done|by exists v].
  - destruct (Hthrow e eq_refl) as (_ & Hfl & _). split; [by apply Hfl|done].
Qed.
End Executions.

(** ** A dependency cycle, run turn by turn *)

Lemma cache_key_inj a b x y :
  JS.includes "@" a = false -> JS.includes "@" b = false ->
  a ++ "@" ++ x = b ++ "@" ++ y -> a = b.
Proof.
  intros Ha Hb Heq. apply (f_equal (JS.split "@")) in Heq.
  change (a ++ "@" ++ x) with (a ++ String "@" x) in Heq.
  change (b ++ "@" ++ y) with (b ++ String "@" y) in Heq.
  rewrite !split_at_first in Heq by done. by injection Heq.
Qed.

(** Run the program as far as it computes; a turn with one ready
    continuation does not depend on the scheduler's choice. *)
Ltac crunch1 :=
  cbn [run step resume ready advance then_ bind try_catch try_finally await
       modify log log_each fetchJson importModuleFiles dependencyChunks
       importFromRegistry importMember moduleChunks importModules call
       settle slices slices_upto
       firstn skipn length map List.map List.filter foldr app fst snd
       store requests virtualModules importingDependencies
       packageMetadataCache failedImports require_cache results logged
       set_virtualModules set_packageMetadataCache set_importingDependencies
       set_failedImports set_require_cache set_results add_log initial_state
       forallb is_settled result_of is_failure andb orb negb
       Nat.ltb Nat.leb Nat.add
       as_string as_pkgJson show from_option id
       name version source alias moduleNameOf
       String.eqb Ascii.eqb Bool.eqb MAX_CONCURRENT_DOWNLOADS].

Ltac flatten_state :=
  cbv beta iota delta
    [set_virtualModules set_packageMetadataCache set_importingDependencies
     set_failedImports set_require_cache set_results add_log
     virtualModules packageMetadataCache importingDependencies
     failedImports require_cache results logged initial_state].

Ltac crunch :=
  repeat (progress (crunch1; rewrite ?Nat.mod_1_r)); flatten_state.

Lemma append_assoc (a b c : string) : (a ++ b) ++ c = a ++ (b ++ c).
Proof.
  induction a as [|x a IH]; [done|]. exact (f_equal (String x) IH).
Qed.

Section Turns.
Context `{Platform}.

Lemma run_app s1 : forall s2 cfg, run (s1 ++ s2) cfg = run s2 (run s1 cfg).
Proof. induction s1 as [|c s1 IH]; intros s2 cfg; cbn [run app]; auto. Qed.

Lemma run_settled schedule w t :
  is_settled t = true -> run schedule (w, t) = (w, t).
Proof. intros Hs. apply run_quiescent. by destruct t. Qed.
End Turns.

Section Cycle.
Context `{Platform}.
Variables (A B vA vB textA textB codeA codeB : string) (mA mB : PkgJson.t).
Hypothesis HA : JS.includes "@" A = false.
Hypothesis HB : JS.includes "@" B = false.
Hypothesis HAB : A <> B.
Hypothesis HrvA : is_registry_prefixed (resolvedVersion vA) = false.
Hypothesis HrvB : is_registry_prefixed (resolvedVersion vB) = false.
Hypothesis HdepsA : PkgJson.dependencies mA = [(B, vB)].
Hypothesis HdepsB : PkgJson.dependencies mB = [(A, vA)].
Hypothesis HmA : forall earlier,
  fetch_result earlier (getNpmPackageUrl A (Some "latest"))
  = inl (VString textA).
Hypothesis HmB : forall earlier,
  fetch_result earlier (getNpmPackageUrl B (Some (requestedVersion vB)))
  = inl (VString textB).
Hypothesis HpA : JSON_parse textA = inr mA.
Hypothesis HpB : JSON_parse textB = inr mB.
Hypothesis HfA : forall earlier,
  fetch_result earlier
    (getNpmFileUrl A (PkgJson.version mA) (resolveMainFile mA))
  = inl (VString codeA).
Hypothesis HfB : forall earlier,
  fetch_result earlier
    (getNpmFileUrl B (PkgJson.version mB) (resolveMainFile mB))
  = inl (VString codeB).
Hypothesis HcA : compile codeA ("/virtual_modules/" ++ A ++ ".js") = None.
Hypothesis HcB : compile codeB ("/virtual_modules/" ++ B ++ ".js") = None.

(** The fourteen turns of importing [A]: whatever the scheduler chooses,
    one continuation is ready in each. *)
Lemma cycle_turns fuel c1 c2 c3 c4 c5 c6 c7 c8 c9 c10 c11 c12 c13 c14 :
  run [c1; c2; c3; c4; c5; c6; c7; c8; c9; c10; c11; c12; c13; c14]
    (call (importModules (S (S (S fuel))) [A]) fresh_process)
  = (cycle_final A B mA mB vB codeA codeB, Ret VResults).
Proof.
  unfold call, importModules, fresh_process. crunch.
  (* the callback for [A] starts [importFromRegistry] *)
  rewrite (parse_without_at A HA). crunch.
  rewrite lookup_empty.
  rewrite bool_decide_eq_false_2 by (by intros [? ?]).
  rewrite bool_decide_eq_false_2 by apply not_elem_of_empty.
  crunch. rewrite lookup_empty. crunch.
  (* the manifest of [A] arrives; its dependency [B] is started *)
  rewrite HmA. crunch. rewrite HpA. crunch.
  rewrite HdepsA. crunch. fold (resolvedVersion vB).
  rewrite (parse_at B (resolvedVersion vB) HB HrvB). crunch.
  fold (requestedVersion vB).
  rewrite lookup_empty.
  rewrite bool_decide_eq_false_2 by (by intros [? ?]).
  rewrite bool_decide_eq_false_2
    by (rewrite elem_of_union, elem_of_singleton, elem_of_empty;
        intros [?|[]]; by apply HAB).
  crunch.
  rewrite lookup_insert_ne
    by (intros Heq; apply HAB; eapply cache_key_inj; eauto).
  rewrite lookup_empty. crunch.
  (* the manifest of [B] arrives; its dependency [A] is in flight *)
  rewrite HmB. crunch. rewrite HpB. crunch.
  rewrite HdepsB. crunch. fold (resolvedVersion vA).
  rewrite (parse_at A (resolvedVersion vA) HA HrvA). crunch.
  rewrite lookup_empty.
  rewrite bool_decide_eq_false_2 by (by intros [? ?]).
  rewrite bool_decide_eq_true_2
    by (rewrite !elem_of_union, !elem_of_singleton; auto).
  crunch.
  (* the main file of [B], then the main file of [A] *)
  rewrite HfB. crunch. rewrite HcB. crunch.
  rewrite HfA. crunch. rewrite HcA. crunch.
  reflexivity.
Qed.

Lemma cycle_run fuel schedule :
  14 <= length schedule ->
  run schedule (call (importModules (S (S (S fuel))) [A]) fresh_process)
  = (cycle_final A B mA mB vB codeA codeB, Ret VResults).
Proof.
  intros Hlen. rewrite <- (take_drop 14 schedule), run_app.
  assert (length (take 14 schedule) = 14) as Hl
    by (rewrite length_take; lia).
  destruct (take 14 schedule) as [|c1 l]; [done|].
  do 13 (destruct l as [|? l]; [done|]).
  destruct l; [|done].
  rewrite cycle_turns. by apply run_settled.
Qed.

Lemma cycle_final_facts :
  let s := store (cycle_final A B mA mB vB codeA codeB) in
  is_Some (virtualModules s !! Some A)
  /\ is_Some (virtualModules s !! Some B)
  /\ importingDependencies s = ∅
  /\ (WARN, "Circular dependency detected for " ++ A ++ ", skipping")
     ∈ logged s
  /\ length (requests (cycle_final A B mA mB vB codeA codeB)) = 4.
Proof.
  cbn. split; [by rewrite lookup_insert_eq|].
  split.
  { rewrite lookup_insert_ne by congruence. by rewrite lookup_insert_eq. }
  split.
  { apply leibniz_equiv. intros x.
    rewrite !elem_of_difference, !elem_of_union, !elem_of_singleton,
      elem_of_empty. tauto. }
  split; [|done]. rewrite !elem_of_cons. tauto.
Qed.
End Cycle.

(** ** The claims *)

Section Claims.
Context `{Platform}.



(** C5: after a call of [importFromRegistry] for a name that was not in
    flight has returned normally, the name is registered, and a second
    call for the same specifier returns [undefined] at once: it makes no
    request and changes nothing but the debug log. *)
Theorem importFromRegistry_twice fuel fuel' pkg source_ source' w schedule :
  let nm := name (parsePackageString pkg) in
  let first := run schedule (call (importFromRegistry fuel pkg source_) w) in
  nm ∉ importingDependencies (store w) ->
  (exists v, snd first = Ret v) ->
  is_Some (virtualModules (store (fst first)) !! Some nm)
  /\ call (importFromRegistry (S fuel') pkg source') (fst first)
     = ({| store := add_log DEBUG ("Module " ++ nm ++ " already loaded")
                      (store (fst first));
           requests := requests (fst first) |}, Ret VUndefined).
Proof.
  intros nm first Hfree [v Hv].
  destruct (importFromRegistry_sound fuel pkg source_ w schedule Hfree)
    as [_ Hret]; [fold first; by rewrite Hv|].
  destruct (Hret v Hv) as [_ Hreg].
  split; [done|]. by apply call_importFromRegistry_loaded.
Qed.



(** C10: when compiling the source of a module throws, [importModuleFiles]
    logs the failure and rejects with the compile error, whether the
    source was passed in or fetched; the state it leaves differs from the
    state it ran in by that log entry alone, so neither the registry nor
    [require.cache] gets an entry. *)
Theorem importModuleFiles_compile_error nm source_text m :
  compile source_text ("/virtual_modules/" ++ show nm ++ ".js") = Some m ->
  let failure := Error ("Failed to compile " ++ show nm ++ ": " ++ m) in
  let failed (w : world) : world * task :=
    ({| store := add_log ERROR
                   ("Failed to load " ++ show nm ++ ": "
                    ++ "Failed to compile " ++ show nm ++ ": " ++ m)
                   (store w);
        requests := requests w |}, Throw failure) in
  (forall w, call (importModuleFiles nm source_text true) w = failed w)
  /\ (forall url_ w,
        fetch_result (requests w) url_ = inl (VString source_text) ->
        exists k,
          call (importModuleFiles nm url_ false) w
          = ({| store := store w; requests := url_ :: requests w |},
             Waiting (inl (VString source_text)) k)
          /\ forall i w',
               resume i (Waiting (inl (VString source_text)) k) w'
               = failed w')
  /\ (forall w,
        virtualModules (store (fst (failed w))) = virtualModules (store w)
        /\ require_cache (store (fst (failed w))) = require_cache (store w)).
Proof.
  intros Hc failure failed. split; [|split].
  - intros w. unfold call, importModuleFiles.
    cbn [advance then_ bind try_catch as_string]. rewrite Hc.
    reflexivity.
  - intros url_ w Hf. unfold call, importModuleFiles.
    cbn [advance then_ bind try_catch settle]. rewrite Hf.
    eexists. split; [reflexivity|].
    intros i w'. cbn [resume advance then_ settle as_string].
    rewrite Hc. reflexivity.
  - done.
Qed.
End Claims.

(** C3: a specifier that begins with [@] is split at that first [@]: the
    text before it, the empty string, becomes the name, and unless the
    rest begins with [npm:], [github:] or [yarn:], all of the rest becomes
    the version.  For [@scope/pkg] the name is empty and the version is
    [scope/pkg]. *)
Theorem parsePackageString_scoped_name_lost rest :
  is_registry_prefixed rest = false ->
  name (parsePackageString ("@" ++ rest)) = ""
  /\ version (parsePackageString ("@" ++ rest))
     = (if JS.truthy rest then JS.strip_range_operators rest else "latest")
  /\ source (parsePackageString ("@" ++ rest)) = "npm".
Proof.
  intros Hrest.
  change ("@" ++ rest) with ("" ++ "@" ++ rest).
  by rewrite (parse_at "" rest eq_refl Hrest).
Qed.

Lemma parsePackageString_scoped_name_lost_witness :
  name (parsePackageString "@scope/pkg") = ""
  /\ version (parsePackageString "@scope/pkg") = "scope/pkg"
  /\ source (parsePackageString "@scope/pkg") = "npm".
Proof.
  exact (parsePackageString_scoped_name_lost "scope/pkg" eq_refl).
Defined.







(** C9 (counterexample): for [@scope/pkg] both URL builders encode the
    [/] between scope and package as [%2F]. *)
Lemma getNpmPackageUrl_encodes_slash :
  getNpmPackageUrl "@scope/pkg" (Some "1.0.0")
  = "https://unpkg.com/@scope%2Fpkg@1.0.0/package.json"
  /\ getNpmFileUrl "@scope/pkg" (Some "1.0.0") "index.js"
     = "https://unpkg.com/@scope%2Fpkg@1.0.0/index.js"
  /\ JS.includes "/" (encodedName "@scope/pkg") = false
  /\ encodedName "@scope/pkg" <> spec_encoded_per_segment "@scope/pkg".
Proof. repeat split. discriminate. Qed.

(** C9 (amended): for a scoped name the URL builders keep the leading [@]
    and percent-encode everything after it as one component: the [/]
    between scope and package becomes [%2F], and no [/] is left in the
    encoded name. *)
Theorem encodedName_scoped scope pkg ver filePath :
  let nm := "@" ++ scope ++ "/" ++ pkg in
  encodedName nm
  = "@" ++ JS.encodeURIComponent scope ++ "%2F" ++ JS.encodeURIComponent pkg
  /\ JS.includes "/" (encodedName nm) = false
  /\ getNpmPackageUrl nm ver
     = "https://unpkg.com/@" ++ JS.encodeURIComponent scope ++ "%2F"
       ++ JS.encodeURIComponent pkg ++ version_suffix "@" ver ""
       ++ "/package.json"
  /\ getNpmFileUrl nm ver filePath
     = "https://unpkg.com/@" ++ JS.encodeURIComponent scope ++ "%2F"
       ++ JS.encodeURIComponent pkg ++ version_suffix "@" ver ""
       ++ "/" ++ filePath.
Proof.
  intros nm. subst nm.
  assert (encodedName ("@" ++ scope ++ "/" ++ pkg)
          = "@" ++ JS.encodeURIComponent scope ++ "%2F"
            ++ JS.encodeURIComponent pkg) as Henc
    by apply encodedName_scoped_eq.
  split; [done|]. split.
  { unfold encodedName.
    change (JS.startsWith "@" ("@" ++ scope ++ "/" ++ pkg)) with true.
    cbn iota. cbn [JS.includes String.append]. apply encode_no_slash. }
  unfold getNpmPackageUrl, getNpmFileUrl. rewrite Henc.
  split; cbn [String.append]; by rewrite !append_assoc.
Qed.

(** ** The claims on concrete registries *)

Section OnEmptyRegistry.
#[local] Existing Instance empty_registry.

End OnEmptyRegistry.

Section OnCyclicRegistry.
#[local] Existing Instance cyclic_registry.

Lemma cyclic_registry_two_cycle :
  two_cycle "a" "b" (manifest [("b", "^1.0.0")]) (manifest [("a", "^1.0.0")])
    "^1.0.0" "^1.0.0".
Proof.
  split; try reflexivity; try discriminate.
  - exists "A". split; [intros earlier|]; reflexivity.
  - exists "B". split; [intros earlier|]; reflexivity.
  - exists "exports.a = 1". split; [intros earlier|]; reflexivity.
  - exists "exports.b = 2". split; [intros earlier|]; reflexivity.
Qed.



Lemma importFromRegistry_twice_witness :
  (is_Some
     (virtualModules
        (store (fst (run (first_ready 12)
                       (call (importFromRegistry 5 "a" "npm")
                          fresh_process))))
      !! Some (name (parsePackageString "a")))
   /\ call (importFromRegistry 5 "a" "npm")
        (fst (run (first_ready 12)
                (call (importFromRegistry 5 "a" "npm") fresh_process)))
      = ({| store :=
              add_log DEBUG
                ("Module " ++ name (parsePackageString "a")
                 ++ " already loaded")
                (store (fst (run (first_ready 12)
                               (call (importFromRegistry 5 "a" "npm")
                                  fresh_process))));
            requests :=
              requests (fst (run (first_ready 12)
                               (call (importFromRegistry 5 "a" "npm")
                                  fresh_process))) |},
         Ret VUndefined))
  /\ List.filter (String.eqb "https://unpkg.com/a@latest/package.json")
       (requests (fst (run (first_ready 12)
                         (call (importFromRegistry 5 "a" "npm")
                            fresh_process))))
     = ["https://unpkg.com/a@latest/package.json"].
Proof.
  split.
  - apply (importFromRegistry_twice 5 4 "a" "npm" "npm" fresh_process
             (first_ready 12)).
    + apply not_elem_of_empty.
    + exists VUndefined. vm_compute. reflexivity.
  - vm_compute. reflexivity.
Defined.



End OnCyclicRegistry.

Section OnBrokenRegistry.
#[local] Existing Instance broken_registry.

Lemma importModuleFiles_compile_error_witness :
  let cfg := call (importModuleFiles (Some "a") "exports.a = " true)
               fresh_process in
  snd cfg = Throw (Error "Failed to compile a: Unexpected token")
  /\ virtualModules (store (fst cfg)) = ∅
  /\ require_cache (store (fst cfg)) = ∅
  /\ logged (store (fst cfg))
     = [(ERROR, "Failed to load a: Failed to compile a: Unexpected token")].
Proof.
  intros cfg. subst cfg.
  rewrite (proj1 (importModuleFiles_compile_error (H := broken_registry)
                    (Some "a") "exports.a = " "Unexpected token" eq_refl)
             fresh_process).
  repeat split.
Defined.
End OnBrokenRegistry.

(** ** More on the parser *)

Lemma startsWith_app p : forall s,
  JS.startsWith p s = true -> s = p ++ JS.drop (String.length p) s.
Proof.
  induction p as [|a p IH]; intros [|b s]; cbn; try done.
  intros [Hab Hp]%andb_true_iff. apply Ascii.eqb_eq in Hab as ->.
  exact (f_equal (String b) (IH s Hp)).
Qed.

Lemma strip_range_operators_clean s :
  JS.includes "^" (JS.strip_range_operators s) = false
  /\ JS.includes "~" (JS.strip_range_operators s) = false.
Proof.
  induction s as [|c s [IH1 IH2]]; [done|]. cbn [JS.strip_range_operators].
  destruct (Ascii.eqb_spec c "^") as [->|H1]; [done|].
  destruct (Ascii.eqb_spec c "~") as [->|H2]; [done|].
  cbn [orb JS.includes]. rewrite IH1, IH2.
  split; apply orb_false_iff; (split; [|done]);
    by apply Ascii.eqb_neq.
Qed.

Lemma parse_aliased a rest :
  JS.includes "@" a = false ->
  parsePackageString (a ++ "@npm:" ++ rest)
  = {| name := rest; version := "latest"; source := "npm";
       originalName := a ++ "@npm:" ++ rest; alias := Some a |}
  /\ parsePackageString (a ++ "@yarn:" ++ rest)
     = {| name := rest; version := "latest"; source := "yarn";
          originalName := a ++ "@yarn:" ++ rest; alias := Some a |}
  /\ parsePackageString (a ++ "@github:" ++ rest)
     = {| name := rest; version := "latest"; source := "github";
          originalName := a ++ "@github:" ++ rest; alias := Some a |}.
Proof.
  intros Ha. unfold parsePackageString.
  change (a ++ "@npm:" ++ rest) with (a ++ String "@" ("npm:" ++ rest)).
  change (a ++ "@yarn:" ++ rest) with (a ++ String "@" ("yarn:" ++ rest)).
  change (a ++ "@github:" ++ rest)
    with (a ++ String "@" ("github:" ++ rest)).
  rewrite !(split_at_first _ _ _ Ha). cbn [List.hd List.tl].
  change "@" with (String "@"%char "") at 1 2 3.
  rewrite !join_split. repeat split.
Qed.

(** X1: in an aliased specifier [alias@npm:rest] (likewise [yarn:] and
    [github:]) everything after the prefix is the name, also a trailing
    [@version]; the version is always [latest]. *)
Theorem parsePackageString_aliased a rest :
  JS.includes "@" a = false ->
  parsePackageString (a ++ "@npm:" ++ rest)
  = {| name := rest; version := "latest"; source := "npm";
       originalName := a ++ "@npm:" ++ rest; alias := Some a |}
  /\ parsePackageString (a ++ "@yarn:" ++ rest)
     = {| name := rest; version := "latest"; source := "yarn";
          originalName := a ++ "@yarn:" ++ rest; alias := Some a |}
  /\ parsePackageString (a ++ "@github:" ++ rest)
     = {| name := rest; version := "latest"; source := "github";
          originalName := a ++ "@github:" ++ rest; alias := Some a |}.
Proof. apply parse_aliased. Qed.

Lemma parsePackageString_aliased_witness :
  parsePackageString "myexpress@npm:express@4.17.1"
  = {| name := "express@4.17.1"; version := "latest"; source := "npm";
       originalName := "myexpress@npm:express@4.17.1";
       alias := Some "myexpress" |}.
Proof.
  exact (proj1 (parsePackageString_aliased "myexpress" "express@4.17.1"
                  eq_refl)).
Defined.

(** X2: the source of a parsed specifier is always [npm], [yarn] or
    [github], so the [default] branch of the [switch] in [importModules]
    is never taken. *)
Theorem parsePackageString_source_known input :
  source (parsePackageString input) = "npm"
  \/ source (parsePackageString input) = "yarn"
  \/ source (parsePackageString input) = "github".
Proof.
  unfold parsePackageString.
  destruct (negb (JS.truthy _)); [by left|]. cbv zeta.
  destruct (is_registry_prefixed _) eqn:Hp.
  - cbn [version source]. cbn [String.eqb Ascii.eqb Bool.eqb andb negb].
    cbn [source].
    unfold is_registry_prefixed in Hp.
    apply orb_true_iff in Hp as [Hp|Hp];
      [apply orb_true_iff in Hp as [Hp|Hp]|];
      apply startsWith_app in Hp; rewrite Hp; cbn; auto.
  - destruct (JS.startsWith "@" _).
    + by left.
    + cbn [version]. destruct (negb _); by left.
Qed.

(** X3: the version of a parsed specifier holds no [^] and no [~], and
    [originalName] is the input. *)
Theorem parsePackageString_version_clean input :
  JS.includes "^" (version (parsePackageString input)) = false
  /\ JS.includes "~" (version (parsePackageString input)) = false
  /\ originalName (parsePackageString input) = input.
Proof.
  unfold parsePackageString.
  destruct (negb (JS.truthy _)); [done|]. cbv zeta.
  destruct (is_registry_prefixed _); [done|].
  destruct (JS.startsWith "@" _); [done|].
  cbn [version originalName].
  destruct (String.eqb_spec (JS.join "@" (tl (JS.split "@" input))) "latest")
    as [->|Hne]; [done|].
  cbn [negb version originalName].
  pose proof (strip_range_operators_clean
                (JS.join "@" (tl (JS.split "@" input)))) as [H1 H2].
  done.
Qed.

(** ** More on the URL builders *)

Lemma includes_app c a b :
  JS.includes c (a ++ b) = JS.includes c a || JS.includes c b.
Proof.
  induction a as [|x a IH]; [done|].
  change (JS.includes c (String x a ++ b))
    with (Ascii.eqb x c || JS.includes c (a ++ b)).
  rewrite IH. cbn [JS.includes]. by rewrite orb_assoc.
Qed.

(** X6: [getNpmRegistryUrl] and [getYarnPackageUrl] do not encode the
    name.  An unscoped name is used as it is; of a scoped name the first
    two [/]-separated parts are used and further parts are dropped; a
    scoped name without [/] gets the package part [undefined]. *)
Theorem registryPath_cases scope pkg more nm :
  JS.includes "/" scope = false ->
  JS.includes "/" pkg = false ->
  JS.startsWith "@" nm = false ->
  registryPath nm = nm
  /\ registryPath ("@" ++ scope ++ "/" ++ pkg) = "@" ++ scope ++ "/" ++ pkg
  /\ registryPath ("@" ++ scope ++ "/" ++ pkg ++ "/" ++ more)
     = "@" ++ scope ++ "/" ++ pkg
  /\ registryPath ("@" ++ scope) = "@" ++ scope ++ "/undefined"
  /\ getNpmRegistryUrl nm None
     = "https://registry.npmjs.org/" ++ nm ++ "/latest".
Proof.
  intros Hs Hp Hn.
  assert (JS.includes "/" ("@" ++ scope) = false) as Hs'
    by (by rewrite includes_app, Hs).
  split; [|split; [|split; [|split]]].
  - unfold registryPath. by rewrite Hn.
  - unfold registryPath.
    change (JS.startsWith "@" ("@" ++ scope ++ "/" ++ pkg)) with true.
    cbn iota.
    change ("@" ++ scope ++ "/" ++ pkg)
      with (("@" ++ scope) ++ String "/" pkg).
    rewrite (split_at_first _ _ _ Hs'), (split_without _ _ Hp).
    reflexivity.
  - unfold registryPath.
    change (JS.startsWith "@" ("@" ++ scope ++ "/" ++ pkg ++ "/" ++ more))
      with true.
    cbn iota.
    change ("@" ++ scope ++ "/" ++ pkg ++ "/" ++ more)
      with (("@" ++ scope) ++ String "/" (pkg ++ String "/" more)).
    rewrite (split_at_first _ _ _ Hs'), (split_at_first _ _ _ Hp).
    reflexivity.
  - unfold registryPath.
    change (JS.startsWith "@" ("@" ++ scope)) with true. cbn iota.
    rewrite (split_without _ _ Hs'). cbn [List.hd JS.truthy String.append].
    cbn [nth_or_undefined List.nth].
    change ("@" ++ scope ++ "/undefined")
      with (String "@" (scope ++ "/undefined")).
    by f_equal.
  - unfold getNpmRegistryUrl, registryPath. rewrite Hn. cbn [JS.truthy].
    reflexivity.
Qed.

Lemma registryPath_cases_witness :
  registryPath "lodash" = "lodash"
  /\ registryPath "@types/node" = "@types/node"
  /\ registryPath "@types/node/fs" = "@types/node"
  /\ registryPath "@types" = "@types/undefined"
  /\ getNpmRegistryUrl "lodash" None
     = "https://registry.npmjs.org/lodash/latest".
Proof.
  exact (registryPath_cases "types" "node" "fs" "lodash"
           eq_refl eq_refl eq_refl).
Defined.

(** ** More on the transport client *)

Lemma failure_status_None r :
  failure_status r = None ->
  exists code msg body, r = Response code msg body /\ (code < 400)%Z.
Proof.
  destruct r as [code msg body| |m]; cbn; try done.
  destruct (Z.leb_spec 400 code); [done|]. intros _. eauto.
Qed.

Lemma attempt_stops url_ o get left : forall n delay,
  let f := attempt url_ o get n left delay in
  let k := length (delays f) in
  (k < Nat.max 1 left)%nat
  /\ (forall i, (i < k)%nat -> is_Some (failure_status (get (n + i)%nat)))
  /\ match failure_status (get (n + k)%nat) with
     | None => exists code msg body,
         get (n + k)%nat = Response code msg body
         /\ settled_with f = inl body
     | Some status => exists m,
         settled_with f = inr (NetworkError m status url_)
         /\ S k = Nat.max 1 left
     end.
Proof.
  induction left as [|left IH]; intros n delay.
  - cbv zeta.
    destruct (failure_status (get n)) as [status|] eqn:E.
    + destruct (attempt_last url_ o get n 0 delay status) as [m Hm];
        [lia|done|]. rewrite Hm. cbn [delays settled_with length].
      rewrite Nat.add_0_r, E. split; [cbn; lia|]. split; [intros; lia|].
      by exists m.
    + destruct (failure_status_None _ E) as (code & msg & body & Hg & Hc).
      rewrite (attempt_success url_ o get n 0 delay code msg body Hg Hc).
      cbn [delays settled_with length]. rewrite Nat.add_0_r, E.
      split; [cbn; lia|]. split; [intros; lia|]. eauto.
  - cbv zeta.
    destruct (failure_status (get n)) as [status|] eqn:E.
    + destruct left as [|left].
      * destruct (attempt_last url_ o get n 1 delay status) as [m Hm];
          [lia|done|]. rewrite Hm. cbn [delays settled_with length].
        rewrite Nat.add_0_r, E. split; [cbn; lia|]. split; [intros; lia|].
        by exists m.
      * rewrite (attempt_retry url_ o get n left delay status E).
        cbv zeta. cbn [delays settled_with length].
        specialize (IH (S n) (Z.min (delay * backoffFactor o) (maxDelay o))).
        cbv zeta in IH. destruct IH as (Hk & Hfail & Hlast).
        replace (n + S (length (delays (attempt url_ o get (S n) (S left)
                   (Z.min (delay * backoffFactor o) (maxDelay o))))))%nat
          with (S n + length (delays (attempt url_ o get (S n) (S left)
                   (Z.min (delay * backoffFactor o) (maxDelay o)))))%nat
          by lia.
        split; [lia|]. split.
        -- intros [|i] Hi; [rewrite Nat.add_0_r, E; by eexists|].
           replace (n + S i)%nat with (S n + i)%nat by lia.
           apply Hfail. lia.
        -- destruct (failure_status _); [|done].
           destruct Hlast as (m & Hm & Hlen). exists m. split; [done|]. lia.
    + destruct (failure_status_None _ E) as (code & msg & body & Hg & Hc).
      rewrite (attempt_success url_ o get n (S left) delay code msg body
                 Hg Hc).
      cbn [delays settled_with length]. rewrite Nat.add_0_r, E.
      split; [lia|]. split; [intros; lia|]. eauto.
Qed.


Lemma attempt_delays_shape url_ o get left n delay :
  delays (attempt url_ o get n left delay) = []
  \/ exists left', left = S (S left')
       /\ delays (attempt url_ o get n left delay)
          = delay :: delays (attempt url_ o get (S n) (S left')
                               (Z.min (delay * backoffFactor o) (maxDelay o))).
Proof.
  destruct (failure_status (get n)) as [status|] eqn:E.
  - destruct left as [|[|left]].
    + destruct (attempt_last url_ o get n 0 delay status) as [m ->];
        [lia|done|]. by left.
    + destruct (attempt_last url_ o get n 1 delay status) as [m ->];
        [lia|done|]. by left.
    + right. exists left. split; [done|].
      by rewrite (attempt_retry url_ o get n left delay status E).
  - destruct (failure_status_None _ E) as (code & msg & body & Hg & Hc).
    rewrite (attempt_success url_ o get n left delay code msg body Hg Hc).
    by left.
Qed.

Lemma attempt_delays url_ o get left : forall n delay i d,
  delays (attempt url_ o get n left delay) !! i = Some d ->
  (i = 0%nat -> d = delay)
  /\ ((0 < i)%nat -> (d <= maxDelay o)%Z)
  /\ (forall d', delays (attempt url_ o get n left delay) !! S i = Some d' ->
        d' = Z.min (d * backoffFactor o) (maxDelay o)).
Proof.
  induction left as [|left IH]; intros n delay i d Hd.
  - destruct (attempt_delays_shape url_ o get 0 n delay)
      as [Hnil|(left' & ? & _)]; [|done].
    by rewrite Hnil in Hd.
  - destruct (attempt_delays_shape url_ o get (S left) n delay)
      as [Hnil|(left' & [= ->] & Hcons)]; [by rewrite Hnil in Hd|].
    rewrite Hcons in Hd |- *. destruct i as [|i]; cbn in Hd.
    + injection Hd as <-. split; [done|]. split; [lia|].
      intros d' Hd'. cbn in Hd'.
      by destruct (IH _ _ _ _ Hd') as [-> _].
    + destruct (IH _ _ _ _ Hd) as (Hfirst & Hcap & Hnext).
      split; [done|]. split; [|exact Hnext].
      intros _. destruct i as [|i]; [|apply Hcap; lia].
      rewrite Hfirst by done. apply Z.le_min_r.
Qed.



(** ** More on the importer's pure functions *)

(** X10: [resolveMainFile] never returns the empty string: it is the
    [module] field when that is a non-empty string, else the [main] field
    when that is one, else [index.js]. *)
Theorem resolveMainFile_priority p :
  JS.truthy (resolveMainFile p) = true
  /\ (forall m, PkgJson.module p = Some m -> JS.truthy m = true ->
        resolveMainFile p = m)
  /\ (forall m, (PkgJson.module p = None \/ PkgJson.module p = Some "") ->
        PkgJson.main p = Some m -> JS.truthy m = true ->
        resolveMainFile p = m)
  /\ ((PkgJson.module p = None \/ PkgJson.module p = Some "") ->
      (PkgJson.main p = None \/ PkgJson.main p = Some "") ->
      resolveMainFile p = "index.js").
Proof.
  unfold resolveMainFile.
  destruct (PkgJson.module p) as [[|c m]|], (PkgJson.main p) as [[|c' m']|];
    cbn; repeat split; try done;
    try (intros ? ? ?; by simplify_eq);
    try (intros ? [?|?]; by simplify_eq);
    try (intros [?|?]; by simplify_eq);
    try (intros [?|?] [?|?]; by simplify_eq).
Qed.

Lemma slices_upto_partition {A} n : forall xs : list A,
  (length xs <= n)%nat ->
  concat (slices_upto n xs) = xs
  /\ Forall (fun chunk => (0 < length chunk <= MAX_CONCURRENT_DOWNLOADS)%nat)
       (slices_upto n xs).
Proof.
  induction n as [|n IH]; intros xs Hlen.
  - destruct xs; [by split|cbn in Hlen; lia].
  - destruct xs as [|x xs]; [by split|]. cbn [slices_upto].
    destruct (IH (drop MAX_CONCURRENT_DOWNLOADS (x :: xs))) as [Hc Hf].
    { rewrite length_drop. cbn [length] in *. unfold MAX_CONCURRENT_DOWNLOADS.
      lia. }
    split.
    + cbn [concat]. rewrite Hc. apply take_drop.
    + constructor; [|done]. rewrite length_take. cbn [length].
      unfold MAX_CONCURRENT_DOWNLOADS. lia.
Qed.

(** X17: the loops over [modules] and over the dependencies of a package
    cut the list into consecutive chunks: together the chunks are the
    list, in order, and each holds between one and five elements. *)
Theorem slices_partition {A} (xs : list A) :
  concat (slices xs) = xs
  /\ Forall (fun chunk => (0 < length chunk <= 5)%nat) (slices xs).
Proof. by apply slices_upto_partition. Qed.

(** ** More on clearing and listing *)

Lemma foldr_delete_lookup (l : list (option string * string))
    (rc : gmap string LoadedModule) p :
  foldr (fun entry rc => delete (snd entry) rc) rc l !! p
  = if decide (p ∈ l.*2) then None else rc !! p.
Proof.
  induction l as [|[k q] l IH]; cbn [foldr fmap list_fmap snd].
  - rewrite decide_False; [done|]. apply not_elem_of_nil.
  - destruct (decide (p = q)) as [->|Hne].
    + rewrite lookup_delete_eq. rewrite decide_True; [done|].
      apply elem_of_cons. by left.
    + rewrite lookup_delete_ne by done. rewrite IH.
      destruct (decide (p ∈ l.*2)) as [Hin|Hnin].
      * rewrite decide_True; [done|]. apply elem_of_cons. by right.
      * rewrite decide_False; [done|]. rewrite elem_of_cons. tauto.
Qed.

Lemma registered_path s p :
  p ∈ (map_to_list (virtualModules s)).*2
  <-> exists nm, virtualModules s !! nm = Some p.
Proof.
  rewrite list_elem_of_fmap. split.
  - intros ([nm q] & -> & Hin). exists nm. by apply elem_of_map_to_list.
  - intros [nm Hnm]. exists (nm, p). split; [done|].
    by apply elem_of_map_to_list.
Qed.

(** X19: [clearVirtualModules] deletes from [require.cache] exactly the
    paths the registry held; every other entry of [require.cache] stays. *)
Theorem clearVirtualModules_require_cache s p :
  (forall nm, virtualModules s !! nm = Some p ->
     require_cache (clearVirtualModules s) !! p = None)
  /\ ((forall nm, virtualModules s !! nm <> Some p) ->
      require_cache (clearVirtualModules s) !! p = require_cache s !! p).
Proof.
  cbn [clearVirtualModules require_cache add_log].
  rewrite foldr_delete_lookup. split.
  - intros nm Hnm. rewrite decide_True; [done|].
    apply registered_path. by exists nm.
  - intros Hnone. rewrite decide_False; [done|].
    intros [nm Hnm]%registered_path. by apply (Hnone nm).
Qed.

(** X20: after [clearVirtualModules] the list of modules is empty: the
    CLI's [list] prints that no module is loaded, [require] is no longer
    redirected, and clearing again changes nothing but the log. *)
Theorem clearVirtualModules_then_list s :
  listVirtualModules (clearVirtualModules s) = []
  /\ formatModuleList (listVirtualModules (clearVirtualModules s))
     = "No modules currently loaded."
  /\ (forall moduleName,
        patchedRequire (clearVirtualModules s) moduleName = moduleName)
  /\ clearVirtualModules (clearVirtualModules s)
     = add_log SUCCESS "Virtual module cache cleared"
         (clearVirtualModules s).
Proof.
  assert (listVirtualModules (clearVirtualModules s) = []) as Hl.
  { unfold listVirtualModules. cbn [clearVirtualModules virtualModules add_log].
    by rewrite map_to_list_empty. }
  split; [done|]. split; [by rewrite Hl|]. split.
  - intros m. unfold patchedRequire.
    cbn [clearVirtualModules virtualModules add_log].
    by rewrite lookup_empty.
  - unfold clearVirtualModules at 1.
    cbn [clearVirtualModules virtualModules add_log require_cache
         importingDependencies results logged].
    by rewrite map_to_list_empty.
Qed.

Lemma listVirtualModules_elem s nm path flag :
  {| info_name := nm; info_path := path; loaded := flag |}
  ∈ listVirtualModules s
  <-> virtualModules s !! nm = Some path
      /\ flag = bool_decide (is_Some (require_cache s !! path)).
Proof.
  unfold listVirtualModules. rewrite list_elem_of_In, in_map_iff. split.
  - intros ([k q] & [= -> -> ->] & Hin%list_elem_of_In). split; [|done].
    by apply elem_of_map_to_list.
  - intros [Hnm ->]. exists (nm, path). split; [done|].
    by apply list_elem_of_In, elem_of_map_to_list.
Qed.

(** X21: [listVirtualModules] lists the registry: an element is in the
    list exactly when the registry maps its name to its path and its
    [loaded] flag tells whether [require.cache] has an entry for the
    path; no name is listed twice. *)
Theorem listVirtualModules_entries s :
  (forall nm path flag,
     {| info_name := nm; info_path := path; loaded := flag |}
     ∈ listVirtualModules s
     <-> virtualModules s !! nm = Some path
         /\ flag = bool_decide (is_Some (require_cache s !! path)))
  /\ NoDup (map info_name (listVirtualModules s))
  /\ length (listVirtualModules s) = size (virtualModules s).
Proof.
  split; [apply listVirtualModules_elem|]. unfold listVirtualModules. split.
  - rewrite map_map. cbn [info_name].
    apply (NoDup_fst_map_to_list (virtualModules s)).
  - by rewrite length_map, length_map_to_list.
Qed.

(** ** More on the async functions *)

(** One synchronous stretch of the importer, on a state that is not
    known: as [crunch], but the record of the state is left folded. *)
Ltac stretch :=
  repeat (progress (crunch1; cbn [importFromGitHub tryBranches];
                    rewrite ?Nat.mod_1_r)).

Lemma startsWith_blocked x l r p : forall a,
  JS.includes x (p ++ String l "") = false ->
  JS.includes l a = false ->
  JS.startsWith (p ++ String l "") (a ++ String x r) = false.
Proof.
  induction p as [|c p IH]; intros a Hx Hl.
  - change (Ascii.eqb l x || false = false) in Hx.
    apply orb_false_iff in Hx as [Hx _].
    destruct a as [|b a].
    + change (Ascii.eqb l x && true = false). by rewrite Hx.
    + change (Ascii.eqb b l || JS.includes l a = false) in Hl.
      apply orb_false_iff in Hl as [Hl _].
      change (Ascii.eqb l b && true = false).
      by rewrite Ascii.eqb_sym, Hl.
  - change (JS.includes x (String c p ++ String l ""))
      with (Ascii.eqb c x || JS.includes x (p ++ String l "")) in Hx.
    apply orb_false_iff in Hx as [Hc Hx].
    change (String c p ++ String l "") with (String c (p ++ String l "")).
    destruct a as [|b a].
    + change (Ascii.eqb c x
              && JS.startsWith (p ++ String l "") r = false).
      by rewrite Hc.
    + change (Ascii.eqb b l || JS.includes l a = false) in Hl.
      apply orb_false_iff in Hl as [_ Hl].
      change (Ascii.eqb c b
              && JS.startsWith (p ++ String l "") (a ++ String x r) = false).
      rewrite (IH a Hx Hl). apply andb_false_r.
Qed.

Lemma remove_first_cons pat c s :
  JS.startsWith pat (String c s) = false ->
  JS.remove_first pat (String c s) = String c (JS.remove_first pat s).
Proof.
  intros Hb.
  change (JS.remove_first pat (String c s))
    with (if JS.startsWith pat (String c s)
          then JS.drop (String.length pat) (String c s)
          else String c (JS.remove_first pat s)).
  by rewrite Hb.
Qed.

Lemma remove_first_github a rest :
  JS.includes ":" a = false ->
  JS.remove_first "github:" (a ++ "@github:" ++ rest) = a ++ "@" ++ rest.
Proof.
  intros Ha. induction a as [|c a IH].
  - reflexivity.
  - assert (JS.includes ":" a = false) as Ha'.
    { change (Ascii.eqb c ":" || JS.includes ":" a = false) in Ha.
      by apply orb_false_iff in Ha as [_ ?]. }
    change (String c a ++ "@github:" ++ rest)
      with (String c (a ++ "@github:" ++ rest)).
    rewrite remove_first_cons.
    + rewrite (IH Ha'). reflexivity.
    + exact (startsWith_blocked "@" ":" ("github:" ++ rest) "github"
               (String c a) eq_refl Ha).
Qed.

Section More.
Context `{Platform}.

Lemma advance_then_Waiting t : forall g w w' r k,
  advance t w = (w', Waiting r k) ->
  advance (then_ t g) w = (w', Waiting r (fun r' => then_ (k r') g)).
Proof.
  induction t as [v|e| |k0 IH|s k0 IH|u k0 IH|r0 k0 IH|ps k0 IH];
    intros g w w' r k Hadv.
  - done.
  - done.
  - done.
  - cbn [advance then_] in *. by apply IH.
  - cbn [advance then_] in *. by apply IH.
  - cbn [advance then_] in *. by simplify_eq.
  - cbn [advance then_] in *. by simplify_eq.
  - rewrite advance_AllSettled in Hadv. done.
Qed.

(** X9: [fetchJson] makes one request.  It resolves with the parsed
    body; a body that is not JSON gives an [Error] naming the URL, and a
    failed fetch rejects with the error of the fetch, unchanged. *)
Theorem fetchJson_outcomes url_ w c :
  step c (call (fetchJson url_) w)
  = ({| store := store w; requests := url_ :: requests w |},
     match fetch_result (requests w) url_ with
     | inl data =>
         match JSON_parse (as_string data) with
         | inr pkgJson => Ret (VPackageJson pkgJson)
         | inl m =>
             Throw (Error ("Invalid JSON response from " ++ url_ ++ ": "
                           ++ m))
         end
     | inr e => Throw e
     end).
Proof.
  unfold call, fetchJson, step.
  cbn [advance bind then_ snd fst ready resume store requests].
  destruct (fetch_result (requests w) url_) as [v|e];
    cbn [settle then_ advance]; [|done].
  by destruct (JSON_parse (as_string v)).
Qed.

(** X11: when the source compiles, [importModuleFiles] puts the module
    into [require.cache] under [/virtual_modules/<name>.js] and registers
    the name with that path; it is then listed as loaded, and [require]
    of the name is redirected to the path. *)
Theorem importModuleFiles_registers nm source_text w :
  compile source_text ("/virtual_modules/" ++ show nm ++ ".js") = None ->
  let path := "/virtual_modules/" ++ show nm ++ ".js" in
  let cfg := call (importModuleFiles nm source_text true) w in
  snd cfg = Ret VUndefined
  /\ requests (fst cfg) = requests w
  /\ logged (store (fst cfg)) = logged (store w)
  /\ virtualModules (store (fst cfg)) = <[nm := path]> (virtualModules (store w))
  /\ require_cache (store (fst cfg))
     = <[path := {| filename := path; code := source_text |}]>
         (require_cache (store w))
  /\ {| info_name := nm; info_path := path; loaded := true |}
     ∈ listVirtualModules (store (fst cfg))
  /\ (forall moduleName, nm = Some moduleName ->
        patchedRequire (store (fst cfg)) moduleName = path).
Proof.
  intros Hc path cfg. subst cfg path.
  unfold call, importModuleFiles.
  cbn [advance then_ bind try_catch as_string]. rewrite Hc.
  cbn [advance then_ bind try_catch modify fst snd store requests
       logged virtualModules require_cache set_require_cache
       set_virtualModules].
  do 5 (split; [reflexivity|]). split.
  - apply listVirtualModules_elem.
    cbn [fst store virtualModules require_cache set_require_cache
         set_virtualModules].
    rewrite lookup_insert_eq. split; [done|].
    rewrite bool_decide_eq_true_2; [done|]. by rewrite lookup_insert_eq.
  - intros moduleName ->. unfold patchedRequire.
    cbn [fst store virtualModules require_cache set_require_cache
         set_virtualModules].
    by rewrite lookup_insert_eq.
Qed.


(** *** What a rejection leaves behind *)

Lemma wp_any_top t : forall cur, wp any_change (fun _ _ => True) cur t.
Proof.
  induction t as [| | |k IH|s k IH|u k IH|r k IH|ps k IHps IHk]
    using task_children_ind; intros cur.
  - exact I.
  - exact I.
  - exact I.
  - cbn [wp]. apply IH.
  - cbn [wp]. split; [exact I|apply IH].
  - cbn [wp]. intros r cur' _. apply IH.
  - cbn [wp]. intros cur' _. apply IH.
  - apply wp_AllSettled. split.
    + intros cur' _. eapply Forall_impl; [exact IHps|]. intros p Hp.
      apply Hp.
    + intros rs cur' _. apply IHk.
Qed.

Lemma entries_set_elem key m l : (key, m) ∈ entries_set key m l.
Proof.
  induction l as [|[k v] l IH]; cbn [entries_set].
  - by apply list_elem_of_singleton.
  - case_decide; apply elem_of_cons; [by left|by right].
Qed.

Lemma wp_importFromRegistry_recorded fuel pkg source_ cur :
  wp any_change
    (fun s r => forall e, r = inr e ->
       (Some (name (parsePackageString pkg)), message_of e)
       ∈ failedImports s
       /\ (FAIL, "Failed to import " ++ name (parsePackageString pkg)
                 ++ ": " ++ message_of e) ∈ logged s)
    cur (importFromRegistry fuel pkg source_).
Proof.
  destruct fuel as [|fuel]; [done|].
  cbn [importFromRegistry wp].
  case_bool_decide.
  { apply (wp_log any_change any_change_allows). by intros e [=]. }
  case_bool_decide.
  { apply (wp_log any_change any_change_allows). by intros e [=]. }
  apply (wp_log_bind any_change any_change_allows).
  apply wp_modify_bind; [done|].
  apply wp_try_finally, wp_try_catch.
  eapply wp_mono; [|apply wp_any_top].
  intros s [v|e] _.
  - split; [done|]. by intros e [=].
  - apply (wp_log_bind any_change any_change_allows).
    apply wp_modify_bind; [done|]. cbn [wp]. split; [done|].
    intros e' [= <-].
    cbn [failedImports logged set_importingDependencies set_failedImports
         add_log].
    split; [apply entries_set_elem|].
    apply elem_of_app. right. by apply list_elem_of_singleton.
Qed.

(** X13: whenever [importFromRegistry] rejects, under every schedule,
    [failedImports] then maps the package name to the message of the
    error, and the failure was reported to the logger. *)
Theorem importFromRegistry_rejection_recorded fuel pkg source_ w schedule e :
  let nm := name (parsePackageString pkg) in
  let cfg := run schedule (call (importFromRegistry fuel pkg source_) w) in
  snd cfg = Throw e ->
  (Some nm, message_of e) ∈ failedImports (store (fst cfg))
  /\ (FAIL, "Failed to import " ++ nm ++ ": " ++ message_of e)
     ∈ logged (store (fst cfg)).
Proof.
  intros nm cfg He.
  destruct (call_sound any_change _ _ w schedule
              (wp_importFromRegistry_recorded fuel pkg source_ (store w)))
    as (_ & _ & Hthrow).
  by apply (Hthrow e He).
Qed.

Lemma wp_importFromGitHub_recorded repo cur :
  wp any_change
    (fun s r =>
       (forall v, r = inl v -> v = VUndefined)
       /\ forall e, r = inr e ->
         (List.nth_error (JS.split "/" (JS.remove_first "github:" repo)) 1,
          message_of e) ∈ failedImports s
         /\ (FAIL, "Failed to import "
                   ++ show (List.nth_error
                              (JS.split "/" (JS.remove_first "github:" repo))
                              1)
                   ++ " from GitHub: " ++ message_of e) ∈ logged s)
    cur (importFromGitHub repo).
Proof.
  unfold importFromGitHub. cbn [wp].
  set (nm := List.nth_error (JS.split "/" (JS.remove_first "github:" repo)) 1).
  case_bool_decide.
  { apply (wp_log any_change any_change_allows).
    split; [by intros v [= <-]|by intros e [=]]. }
  apply (wp_log_bind any_change any_change_allows).
  apply wp_try_catch.
  match goal with |- wp _ ?Q0 _ _ => set (Q := Q0) end.
  assert (forall s e, Q s (inr e)) as Hhandler.
  { intros s e. subst Q. cbn beta iota.
    apply (wp_log_bind any_change any_change_allows).
    apply wp_modify_bind; [done|]. cbn [wp]. split; [by intros v [=]|].
    intros e' [= <-]. cbn [failedImports logged set_failedImports add_log].
    split; [apply entries_set_elem|].
    apply elem_of_app. right. by apply list_elem_of_singleton. }
  apply wp_tryBranches.
  intros content err s.
  destruct content as [c|]; [|apply Hhandler].
  destruct (JS.truthy c); [|apply Hhandler].
  apply wp_bind, wp_await.
  apply (wp_importModuleFiles any_change any_change_allows).
  - intros s1 _ _ s2 _.
    apply (wp_log any_change any_change_allows). subst Q. cbn beta iota.
    split; [by intros v [= <-]|by intros e [=]].
  - intros s1 e _ s2 _. apply Hhandler.
Qed.

(** X14: whenever [importFromGitHub] rejects, under every schedule,
    [failedImports] then maps the repository name (the second
    [/]-separated part of the specifier without its [github:]) to the
    message of the error, and the failure was reported to the logger. *)
Theorem importFromGitHub_rejection_recorded repo w schedule e :
  let nm := List.nth_error (JS.split "/" (JS.remove_first "github:" repo)) 1 in
  let cfg := run schedule (call (importFromGitHub repo) w) in
  snd cfg = Throw e ->
  (nm, message_of e) ∈ failedImports (store (fst cfg))
  /\ (FAIL, "Failed to import " ++ show nm ++ " from GitHub: "
            ++ message_of e) ∈ logged (store (fst cfg)).
Proof.
  intros nm cfg He.
  destruct (call_sound any_change _ _ w schedule
              (wp_importFromGitHub_recorded repo (store w)))
    as (_ & _ & Hthrow).
  by apply (Hthrow e He).
Qed.

(** *** The first requests of an import *)

(** X15: when the manifest cannot be fetched from the first source,
    [unpkg.com] or for [yarn] the Yarn registry, the next request of
    [importFromRegistry] goes to [registry.npmjs.org]. *)
Theorem importFromRegistry_falls_back fuel pkg source_ w e c1 c2 :
  let nm := name (parsePackageString pkg) in
  let ver := version (parsePackageString pkg) in
  virtualModules (store w) !! Some nm = None ->
  nm ∉ importingDependencies (store w) ->
  packageMetadataCache (store w) !! (nm ++ "@" ++ ver) = None ->
  fetch_result (requests w) (manifestUrl source_ nm ver) = inr e ->
  requests (fst (run [c1; c2]
                   (call (importFromRegistry (S fuel) pkg source_) w)))
  = getNpmRegistryUrl nm (Some ver) :: manifestUrl source_ nm ver
    :: requests w.
Proof.
  intros nm ver Hl Hf Hc He. subst nm ver. unfold manifestUrl in *.
  unfold call. stretch.
  rewrite bool_decide_eq_false_2 by (rewrite Hl; by intros [? ?]).
  rewrite bool_decide_eq_false_2 by done.
  stretch. rewrite Hc. stretch. rewrite He. stretch.
  reflexivity.
Qed.

(** X16: a manifest found in the cache is not fetched again: for a
    cached manifest without dependencies the first request of
    [importFromRegistry] is the one for the main file. *)
Theorem importFromRegistry_uses_cache fuel pkg source_ w p :
  let nm := name (parsePackageString pkg) in
  let ver := version (parsePackageString pkg) in
  virtualModules (store w) !! Some nm = None ->
  nm ∉ importingDependencies (store w) ->
  packageMetadataCache (store w) !! (nm ++ "@" ++ ver) = Some p ->
  PkgJson.dependencies p = [] ->
  requests (fst (call (importFromRegistry (S fuel) pkg source_) w))
  = getNpmFileUrl nm (PkgJson.version p) (resolveMainFile p) :: requests w.
Proof.
  intros nm ver Hl Hf Hc Hd. subst nm ver.
  unfold call. stretch.
  rewrite bool_decide_eq_false_2 by (rewrite Hl; by intros [? ?]).
  rewrite bool_decide_eq_false_2 by done.
  stretch. rewrite Hc. stretch. rewrite Hd. stretch.
  unfold getYarnFileUrl. by destruct (String.eqb source_ "yarn").
Qed.

(** X4: a specifier without [@] is imported from the npm registry under
    the whole text as package name, also when it begins with [github:],
    [npm:] or [yarn:]: the prefix is recognised only after an alias. *)
Theorem importMember_without_alias fuel m w :
  JS.includes "@" m = false ->
  virtualModules (store w) !! Some m = None ->
  m ∉ importingDependencies (store w) ->
  packageMetadataCache (store w) !! (m ++ "@" ++ "latest") = None ->
  requests (fst (call (importMember (S fuel) m) w))
  = getNpmPackageUrl m (Some "latest") :: requests w.
Proof.
  intros Hm Hl Hf Hc. unfold call, importMember.
  rewrite !(parse_without_at m Hm). stretch.
  rewrite !(parse_without_at m Hm). stretch.
  rewrite bool_decide_eq_false_2 by (rewrite Hl; by intros [? ?]).
  rewrite bool_decide_eq_false_2 by done.
  stretch. rewrite Hc. stretch. reflexivity.
Qed.

(** X5: for an aliased GitHub specifier [alias@github:owner/repo] the
    whole specifier is handed to [importFromGitHub], which removes the
    prefix [github:] only: the owner in the URLs is [alias@owner]. *)
Theorem importMember_aliased_github fuel a owner repo w :
  JS.includes "@" a = false ->
  JS.includes ":" a = false ->
  JS.includes "/" a = false ->
  JS.includes "/" owner = false ->
  JS.includes "/" repo = false ->
  virtualModules (store w) !! Some repo = None ->
  requests (fst (call (importMember fuel
                         (a ++ "@github:" ++ owner ++ "/" ++ repo)) w))
  = ("https://raw.githubusercontent.com/" ++ (a ++ "@" ++ owner) ++ "/"
     ++ repo ++ "/" ++ "main" ++ "/" ++ "package.json") :: requests w.
Proof.
  intros Ha Hcolon Hslash Ho Hr Hl. unfold call, importMember.
  destruct (parse_aliased a (owner ++ "/" ++ repo) Ha) as (_ & _ & ->).
  stretch. unfold importFromGitHub.
  rewrite !(remove_first_github a (owner ++ "/" ++ repo) Hcolon).
  assert (JS.split "/" (a ++ "@" ++ owner ++ "/" ++ repo)
          = [a ++ "@" ++ owner; repo]) as ->.
  { assert (JS.includes "/" (a ++ "@" ++ owner) = false) as Hao.
    { rewrite includes_app, Hslash.
      change ("@" ++ owner) with (String "@" owner). cbn [JS.includes].
      by rewrite Ho. }
    replace (a ++ "@" ++ owner ++ "/" ++ repo)
      with ((a ++ "@" ++ owner) ++ String "/" repo)
      by (by rewrite append_assoc).
    by rewrite (split_at_first _ _ _ Hao), (split_without _ _ Hr). }
  cbn [List.hd List.nth_error]. stretch.
  rewrite bool_decide_eq_false_2 by (rewrite Hl; by intros [? ?]).
  stretch. by rewrite !append_assoc.
Qed.

(** *** Registered modules are loaded *)

Lemma importModules_keeps fuel modules w schedule :
  registered_loaded (store w) ->
  registered_loaded
    (store (fst (run schedule (call (importModules fuel modules) w)))).
Proof.
  assert (PreOrder keeps_registered_loaded) as Hpre.
  { split; unfold keeps_registered_loaded; [by intros ?|intros ???; auto]. }
  assert (allows keeps_registered_loaded) as Hallows.
  { split; try (intros; intros Hs; exact Hs).
    - intros p m s Hs nm q Hq. destruct (Hs nm q Hq) as [-> Hin].
      split; [done|]. cbn [require_cache set_require_cache].
      destruct (decide (p = "/virtual_modules/" ++ show nm ++ ".js"))
        as [->|Hne].
      + by rewrite lookup_insert_eq.
      + by rewrite lookup_insert_ne.
    - intros nm s Hin Hs k q. cbn [virtualModules set_virtualModules
        require_cache].
      destruct (decide (nm = k)) as [->|Hne].
      + rewrite lookup_insert_eq. by intros [= <-].
      + rewrite lookup_insert_ne by done. apply Hs. }
  destruct (call_sound keeps_registered_loaded
              (returns_results (fun _ => True))
              (importModules fuel modules) w schedule) as (Hkeeps & _).
  { apply wp_importModules with (modules := modules);
      first [ exact Hpre | exact Hallows | done
            | intros; intros Hs; exact Hs ]. }
  exact Hkeeps.
Qed.

(** X18: every execution of [importModules] keeps the registry and
    [require.cache] in step: if before the call every registered name had
    the path [/virtual_modules/<name>.js] and an entry of [require.cache]
    under it, the same holds at every turn after, and
    [listVirtualModules] reports every module as loaded. *)
Theorem importModules_keeps_registered_loaded fuel modules w schedule :
  registered_loaded (store w) ->
  let s := store (fst (run schedule (call (importModules fuel modules) w))) in
  registered_loaded s
  /\ forall m, m ∈ listVirtualModules s ->
       loaded m = true
       /\ info_path m = "/virtual_modules/" ++ show (info_name m) ++ ".js".
Proof.
  intros Hw s.
  assert (registered_loaded s) as Hs by (by apply importModules_keeps).
  split; [done|]. intros [nm path flag] [Hnm ->]%listVirtualModules_elem.
  destruct (Hs nm path Hnm) as [-> Hin]. cbn [loaded info_path info_name].
  split; [|done]. by apply bool_decide_eq_true_2.
Qed.

Lemma importFromRegistry_keeps fuel pkg source_ w schedule :
  registered_loaded (store w) ->
  registered_loaded
    (store (fst (run schedule (call (importFromRegistry fuel pkg source_) w)))).
Proof.
  assert (PreOrder keeps_registered_loaded) as Hpre.
  { split; unfold keeps_registered_loaded; [by intros ?|intros ???; auto]. }
  assert (allows keeps_registered_loaded) as Hallows.
  { split; try (intros; intros Hs; exact Hs).
    - intros p m s Hs nm q Hq. destruct (Hs nm q Hq) as [-> Hin].
      split; [done|]. cbn [require_cache set_require_cache].
      destruct (decide (p = "/virtual_modules/" ++ show nm ++ ".js"))
        as [->|Hne].
      + by rewrite lookup_insert_eq.
      + by rewrite lookup_insert_ne.
    - intros nm s Hin Hs k q. cbn [virtualModules set_virtualModules
        require_cache].
      destruct (decide (nm = k)) as [->|Hne].
      + rewrite lookup_insert_eq. by intros [= <-].
      + rewrite lookup_insert_ne by done. apply Hs. }
  destruct (call_sound keeps_registered_loaded
              (imported keeps_registered_loaded
                 (name (parsePackageString pkg)) (store w))
              (importFromRegistry fuel pkg source_) w schedule)
    as (Hkeeps & _).
  { by apply wp_importFromRegistry. }
  exact Hkeeps.
Qed.

(** X22: once [importFromRegistry] has returned normally for a name that
    was not in flight, [require] of the package name is redirected to
    [/virtual_modules/<name>.js], and [require.cache] holds the module
    under that path. *)
Theorem importFromRegistry_redirects_require fuel pkg source_ w schedule v :
  let nm := name (parsePackageString pkg) in
  let cfg := run schedule (call (importFromRegistry fuel pkg source_) w) in
  registered_loaded (store w) ->
  nm ∉ importingDependencies (store w) ->
  snd cfg = Ret v ->
  patchedRequire (store (fst cfg)) nm = "/virtual_modules/" ++ nm ++ ".js"
  /\ is_Some (require_cache (store (fst cfg))
              !! ("/virtual_modules/" ++ nm ++ ".js")).
Proof.
  intros nm cfg Hinv Hfree Hv. subst nm cfg.
  destruct (importFromRegistry_sound fuel pkg source_ w schedule Hfree)
    as [_ Hret]; [by rewrite Hv|].
  destruct (Hret v Hv) as [_ [path Hpath]].
  destruct (importFromRegistry_keeps fuel pkg source_ w schedule Hinv
              _ path Hpath) as [-> Hin].
  unfold patchedRequire. by rewrite Hpath.
Qed.
End More.

(** ** The further properties on concrete registries *)

Lemma initial_state_registered_loaded : registered_loaded initial_state.
Proof.
  intros nm p Hp. cbn [initial_state virtualModules] in Hp.
  by rewrite lookup_empty in Hp.
Qed.

Section MoreOnEmptyRegistry.
#[local] Existing Instance empty_registry.


Lemma importFromRegistry_rejection_recorded_witness :
  let cfg := run (first_ready 4)
               (call (importFromRegistry 5 "x" "npm") fresh_process) in
  snd cfg = Throw (NetworkError "HTTP 404 - Not Found" 404
                     "https://registry.npmjs.org/x/latest")
  /\ failedImports (store (fst cfg)) = [(Some "x", "HTTP 404 - Not Found")]
  /\ (Some (name (parsePackageString "x")),
      message_of (NetworkError "HTTP 404 - Not Found" 404
                    "https://registry.npmjs.org/x/latest"))
     ∈ failedImports (store (fst cfg)).
Proof.
  intros cfg.
  assert (snd cfg = Throw (NetworkError "HTTP 404 - Not Found" 404
                             "https://registry.npmjs.org/x/latest")) as He
    by (vm_compute; reflexivity).
  split; [exact He|]. split; [vm_compute; reflexivity|].
  exact (proj1 (importFromRegistry_rejection_recorded (H := empty_registry) 5 "x" "npm"
                  fresh_process (first_ready 4) _ He)).
Defined.

Lemma importFromGitHub_rejection_recorded_witness :
  let cfg := run (first_ready 10)
               (call (importFromGitHub "github:user/repo") fresh_process) in
  snd cfg
  = Throw (NetworkError "HTTP 404 - Not Found" 404
             "https://raw.githubusercontent.com/user/repo/master/package.json")
  /\ requests (fst cfg)
     = ["https://raw.githubusercontent.com/user/repo/master/package.json";
        "https://raw.githubusercontent.com/user/repo/main/package.json"]
  /\ (List.nth_error (JS.split "/" (JS.remove_first "github:" "github:user/repo")) 1,
      message_of
        (NetworkError "HTTP 404 - Not Found" 404
           "https://raw.githubusercontent.com/user/repo/master/package.json"))
     ∈ failedImports (store (fst cfg)).
Proof.
  intros cfg.
  assert (snd cfg
          = Throw (NetworkError "HTTP 404 - Not Found" 404
                     "https://raw.githubusercontent.com/user/repo/master/package.json"))
    as He by (vm_compute; reflexivity).
  split; [exact He|]. split; [vm_compute; reflexivity|].
  exact (proj1 (importFromGitHub_rejection_recorded (H := empty_registry) "github:user/repo"
                  fresh_process (first_ready 10) _ He)).
Defined.

Lemma importFromRegistry_falls_back_witness :
  requests (fst (run [0; 0]
                   (call (importFromRegistry 1 "x" "yarn") fresh_process)))
  = ["https://registry.npmjs.org/x/latest";
     "https://registry.yarnpkg.com/x/latest"].
Proof.
  exact (importFromRegistry_falls_back (H := empty_registry) 0 "x" "yarn" fresh_process
           (NetworkError "HTTP 404 - Not Found" 404
              "https://registry.yarnpkg.com/x/latest") 0 0
           eq_refl (not_elem_of_empty (C:=gset string) "x") eq_refl eq_refl).
Defined.
End MoreOnEmptyRegistry.

Section MoreOnCyclicRegistry.
#[local] Existing Instance cyclic_registry.

Lemma importModuleFiles_registers_witness :
  let cfg := call (importModuleFiles (Some "a") "exports.a = 1" true)
               fresh_process in
  snd cfg = Ret VUndefined
  /\ listVirtualModules (store (fst cfg))
     = [{| info_name := Some "a"; info_path := "/virtual_modules/a.js";
           loaded := true |}]
  /\ patchedRequire (store (fst cfg)) "a" = "/virtual_modules/a.js".
Proof.
  intros cfg.
  destruct (importModuleFiles_registers (H := cyclic_registry) (Some "a") "exports.a = 1"
              fresh_process eq_refl) as (H1 & _ & _ & _ & _ & _ & H7).
  split; [exact H1|]. split; [vm_compute; reflexivity|].
  exact (H7 "a" eq_refl).
Defined.

Lemma importFromRegistry_uses_cache_witness :
  let w := {| store := set_packageMetadataCache
                         (insert "x@latest" (manifest [])) initial_state;
              requests := [] |} in
  requests (fst (call (importFromRegistry 1 "x" "npm") w))
  = ["https://unpkg.com/x@1.0.0/index.js"].
Proof.
  intros w.
  exact (importFromRegistry_uses_cache (H := cyclic_registry) 0 "x" "npm" w (manifest [])
           eq_refl (not_elem_of_empty (C:=gset string) "x") eq_refl eq_refl).
Defined.

Lemma importMember_without_alias_witness :
  requests (fst (call (importMember 1 "github:user/repo") fresh_process))
  = ["https://unpkg.com/github%3Auser%2Frepo@latest/package.json"].
Proof.
  exact (importMember_without_alias (H := cyclic_registry) 0 "github:user/repo" fresh_process
           eq_refl eq_refl
           (not_elem_of_empty (C:=gset string) "github:user/repo") eq_refl).
Defined.

Lemma importMember_aliased_github_witness :
  requests (fst (call (importMember 1 "mylib@github:user/repo")
                   fresh_process))
  = ["https://raw.githubusercontent.com/mylib@user/repo/main/package.json"].
Proof.
  exact (importMember_aliased_github (H := cyclic_registry) 1 "mylib" "user" "repo" fresh_process
           eq_refl eq_refl eq_refl eq_refl eq_refl eq_refl).
Defined.

Lemma importModules_keeps_registered_loaded_witness :
  let s := store (fst (run (first_ready 14)
                         (call (importModules 5 ["a"]) fresh_process))) in
  length (listVirtualModules s) = 2
  /\ forall m, m ∈ listVirtualModules s ->
       loaded m = true
       /\ info_path m = "/virtual_modules/" ++ show (info_name m) ++ ".js".
Proof.
  intros s. split; [vm_compute; reflexivity|].
  exact (proj2 (importModules_keeps_registered_loaded (H := cyclic_registry) 5 ["a"] fresh_process
                  (first_ready 14) initial_state_registered_loaded)).
Defined.

Lemma importFromRegistry_redirects_require_witness :
  let cfg := run (first_ready 12)
               (call (importFromRegistry 5 "a" "npm") fresh_process) in
  patchedRequire (store (fst cfg)) (name (parsePackageString "a"))
  = "/virtual_modules/" ++ name (parsePackageString "a") ++ ".js"
  /\ is_Some (require_cache (store (fst cfg))
              !! ("/virtual_modules/" ++ name (parsePackageString "a")
                  ++ ".js")).
Proof.
  intros cfg.
  apply (importFromRegistry_redirects_require (H := cyclic_registry) 5 "a" "npm" fresh_process
           (first_ready 12) VUndefined).
  - exact initial_state_registered_loaded.
  - apply not_elem_of_empty.
  - vm_compute. reflexivity.
Defined.
End MoreOnCyclicRegistry.

(** ** A dependency that cannot be found *)

Section Resilient.
Context `{Platform}.
Variables (A B vB textA codeA : string) (mA : PkgJson.t) (e1 e2 : error).
Hypothesis HA : JS.includes "@" A = false.
Hypothesis HB : JS.includes "@" B = false.
Hypothesis HAB : A <> B.
Hypothesis HrvB : is_registry_prefixed (resolvedVersion vB) = false.
Hypothesis HdepsA : PkgJson.dependencies mA = [(B, vB)].
Hypothesis HmA : forall earlier,
  fetch_result earlier (getNpmPackageUrl A (Some "latest"))
  = inl (VString textA).
Hypothesis HpA : JSON_parse textA = inr mA.
Hypothesis HmB1 : forall earlier,
  fetch_result earlier (getNpmPackageUrl B (Some (requestedVersion vB)))
  = inr e1.
Hypothesis HmB2 : forall earlier,
  fetch_result earlier (getNpmRegistryUrl B (Some (requestedVersion vB)))
  = inr e2.
Hypothesis HfA : forall earlier,
  fetch_result earlier
    (getNpmFileUrl A (PkgJson.version mA) (resolveMainFile mA))
  = inl (VString codeA).
Hypothesis HcA : compile codeA ("/virtual_modules/" ++ A ++ ".js") = None.

Lemma resilient_turns fuel c1 c2 c3 c4 c5 c6 c7 c8 c9 c10 c11 :
  run [c1; c2; c3; c4; c5; c6; c7; c8; c9; c10; c11]
    (call (importFromRegistry (S (S fuel)) A "npm") fresh_process)
  = (resilient_final A B mA vB codeA e2, Ret VUndefined).
Proof.
  unfold call, fresh_process. crunch.
  rewrite (parse_without_at A HA). crunch.
  rewrite lookup_empty.
  rewrite bool_decide_eq_false_2 by (by intros [? ?]).
  rewrite bool_decide_eq_false_2 by apply not_elem_of_empty.
  crunch. rewrite lookup_empty. crunch.
  (* the manifest of [A] arrives; its dependency [B] is started *)
  rewrite HmA. crunch. rewrite HpA. crunch.
  rewrite HdepsA. crunch. fold (resolvedVersion vB).
  rewrite (parse_at B (resolvedVersion vB) HB HrvB). crunch.
  fold (requestedVersion vB).
  rewrite lookup_empty.
  rewrite bool_decide_eq_false_2 by (by intros [? ?]).
  rewrite bool_decide_eq_false_2
    by (rewrite elem_of_union, elem_of_singleton, elem_of_empty;
        intros [?|[]]; by apply HAB).
  crunch.
  rewrite lookup_insert_ne
    by (intros Heq; apply HAB; eapply cache_key_inj; eauto).
  rewrite lookup_empty. crunch.
  (* both requests for the manifest of [B] fail *)
  rewrite HmB1. crunch. rewrite HmB2. crunch.
  (* the main file of [A] *)
  rewrite HfA. crunch. rewrite HcA. crunch.
  reflexivity.
Qed.

Lemma resilient_run fuel schedule :
  11 <= length schedule ->
  run schedule (call (importFromRegistry (S (S fuel)) A "npm") fresh_process)
  = (resilient_final A B mA vB codeA e2, Ret VUndefined).
Proof.
  intros Hlen. rewrite <- (take_drop 11 schedule), run_app.
  assert (length (take 11 schedule) = 11) as Hl
    by (rewrite length_take; lia).
  destruct (take 11 schedule) as [|c1 l]; [done|].
  do 10 (destruct l as [|? l]; [done|]).
  destruct l; [|done].
  rewrite resilient_turns. by apply run_settled.
Qed.

Lemma resilient_final_facts :
  let s := store (resilient_final A B mA vB codeA e2) in
  is_Some (virtualModules s !! Some A)
  /\ virtualModules s !! Some B = None
  /\ failedImports s = [(Some B, message_of e2)]
  /\ importingDependencies s = ∅
  /\ (WARN, "Failed to import dependency " ++ B ++ ": " ++ message_of e2)
     ∈ logged s.
Proof.
  cbn. split; [by rewrite lookup_insert_eq|].
  split.
  { rewrite lookup_insert_ne by congruence. apply lookup_empty. }
  split; [by rewrite decide_True|].
  split.
  { apply leibniz_equiv. intros x.
    rewrite !elem_of_difference, !elem_of_union, !elem_of_singleton,
      elem_of_empty. tauto. }
  rewrite !elem_of_cons. tauto.
Qed.
End Resilient.

Section Master.
Context `{Platform}.
Variables (owner repo text content : string) (m : PkgJson.t) (e : error).
Hypothesis Ho : JS.includes "/" owner = false.
Hypothesis Hr : JS.includes "/" repo = false.
Hypothesis Hmain : forall earlier,
  fetch_result earlier
    (("https://raw.githubusercontent.com/" ++ owner ++ "/" ++ repo ++ "/"
      ++ "main" ++ "/") ++ "package.json") = inr e.
Hypothesis Hmaster : forall earlier,
  fetch_result earlier
    (("https://raw.githubusercontent.com/" ++ owner ++ "/" ++ repo ++ "/"
      ++ "master" ++ "/") ++ "package.json") = inl (VString text).
Hypothesis Hp : JSON_parse text = inr m.
Hypothesis Hfile : forall earlier,
  fetch_result earlier
    (("https://raw.githubusercontent.com/" ++ owner ++ "/" ++ repo ++ "/"
      ++ "master" ++ "/") ++ resolveMainFile m) = inl (VString content).
Hypothesis Ht : JS.truthy content = true.
Hypothesis Hc : compile content ("/virtual_modules/" ++ repo ++ ".js") = None.

Lemma master_turns c1 c2 c3 c4 c5 c6 c7 c8 :
  run [c1; c2; c3; c4; c5; c6; c7; c8]
    (call (importFromGitHub ("github:" ++ owner ++ "/" ++ repo))
       fresh_process)
  = (master_final owner repo m content, Ret VUndefined).
Proof.
  unfold call, fresh_process, importFromGitHub.
  change (JS.remove_first "github:" ("github:" ++ owner ++ "/" ++ repo))
    with (owner ++ String "/" repo).
  rewrite !(split_at_first _ _ _ Ho), !(split_without _ _ Hr).
  cbn [List.hd List.nth_error]. crunch. cbn [tryBranches]. crunch.
  rewrite lookup_empty.
  rewrite bool_decide_eq_false_2 by (by intros [? ?]).
  crunch. cbn [tryBranches]. crunch.
  (* the branch [main] has no manifest *)
  rewrite Hmain. repeat (progress (crunch; cbn [tryBranches])).
  (* the branch [master] has one, and the main file *)
  rewrite Hmaster. repeat (progress (crunch; cbn [tryBranches])).
  rewrite Hp. repeat (progress (crunch; cbn [tryBranches])).
  rewrite Hfile. repeat (progress (crunch; cbn [tryBranches])).
  rewrite Ht. repeat (progress (crunch; cbn [tryBranches])).
  rewrite Hc. repeat (progress (crunch; cbn [tryBranches])).
  reflexivity.
Qed.

Lemma master_run schedule :
  8 <= length schedule ->
  run schedule
    (call (importFromGitHub ("github:" ++ owner ++ "/" ++ repo))
       fresh_process)
  = (master_final owner repo m content, Ret VUndefined).
Proof.
  intros Hlen. rewrite <- (take_drop 8 schedule), run_app.
  assert (length (take 8 schedule) = 8) as Hl
    by (rewrite length_take; lia).
  destruct (take 8 schedule) as [|c1 l]; [done|].
  do 7 (destruct l as [|? l]; [done|]).
  destruct l; [|done].
  rewrite master_turns. by apply run_settled.
Qed.
End Master.

Section Resilience.
Context `{Platform}.

(** X23: a dependency that cannot be imported does not fail the package
    that depends on it.  When [A] depends on [B] alone and the manifest
    of [B] is found neither at unpkg.com nor in the npm registry,
    importing [A] into a new process returns normally after eleven
    turns, under every schedule: [A] is registered, [B] is not,
    [failedImports] holds [B] with the message of the registry's error,
    and nothing is left in flight. *)
Theorem importFromRegistry_survives_dependency A B vB mA e1 e2 :
  JS.includes "@" A = false ->
  JS.includes "@" B = false ->
  A <> B ->
  is_registry_prefixed (resolvedVersion vB) = false ->
  PkgJson.dependencies mA = [(B, vB)] ->
  serves_manifest A "latest" mA ->
  serves_main A mA ->
  (forall earlier,
     fetch_result earlier (getNpmPackageUrl B (Some (requestedVersion vB)))
     = inr e1) ->
  (forall earlier,
     fetch_result earlier (getNpmRegistryUrl B (Some (requestedVersion vB)))
     = inr e2) ->
  forall fuel schedule, 11 <= length schedule ->
    let cfg := run schedule
                 (call (importFromRegistry (S (S fuel)) A "npm")
                    fresh_process) in
    snd cfg = Ret VUndefined
    /\ is_Some (virtualModules (store (fst cfg)) !! Some A)
    /\ virtualModules (store (fst cfg)) !! Some B = None
    /\ failedImports (store (fst cfg)) = [(Some B, message_of e2)]
    /\ importingDependencies (store (fst cfg)) = ∅
    /\ (WARN, "Failed to import dependency " ++ B ++ ": " ++ message_of e2)
       ∈ logged (store (fst cfg)).
Proof.
  intros HA HB HAB HrvB HdepsA (textA & HmA & HpA) (codeA & HfA & HcA)
    HmB1 HmB2 fuel schedule Hlen cfg. subst cfg.
  rewrite (resilient_run A B vB textA codeA mA e1 e2
             HA HB HAB HrvB HdepsA HmA HpA HmB1 HmB2 HfA HcA
             fuel schedule Hlen).
  cbn [fst snd]. split; [done|].
  by apply resilient_final_facts.
Qed.

End Resilience.

Lemma encode_unreserved s :
  Forall (fun c => JS.unreserved c = true) (list_ascii_of_string s) ->
  JS.encodeURIComponent s = s.
Proof.
  induction s as [|c s IH]; [done|]. cbn [list_ascii_of_string].
  intros [Hc Hs]%Forall_cons. cbn [JS.encodeURIComponent].
  by rewrite Hc, IH.
Qed.

(** X25: a package name made of letters, digits and [- _ . ! ~ * ' ( )]
    goes into the unpkg URLs unchanged; the version is never encoded. *)
Theorem getNpmPackageUrl_plain nm ver filePath :
  Forall (fun c => JS.unreserved c = true) (list_ascii_of_string nm) ->
  JS.truthy ver = true ->
  getNpmPackageUrl nm (Some ver)
  = "https://unpkg.com/" ++ nm ++ "@" ++ ver ++ "/package.json"
  /\ getNpmFileUrl nm (Some ver) filePath
     = "https://unpkg.com/" ++ nm ++ "@" ++ ver ++ "/" ++ filePath
  /\ getNpmPackageUrl nm None = "https://unpkg.com/" ++ nm ++ "/package.json".
Proof.
  intros Hnm Hver.
  assert (encodedName nm = nm) as Henc.
  { unfold encodedName. destruct nm as [|c nm]; [done|].
    cbn [list_ascii_of_string] in Hnm.
    pose proof Hnm as [Hc _]%Forall_cons.
    cbn [JS.startsWith].
    destruct (Ascii.eqb_spec "@" c) as [<-|_]; [done|].
    cbn [andb]. by apply encode_unreserved. }
  unfold getNpmPackageUrl, getNpmFileUrl, version_suffix.
  rewrite Henc, Hver. cbn [String.append].
  repeat split; by rewrite ?append_assoc.
Qed.

Lemma getNpmPackageUrl_plain_witness :
  getNpmPackageUrl "lodash" (Some "4.17.21")
  = "https://unpkg.com/lodash@4.17.21/package.json"
  /\ getNpmFileUrl "lodash" (Some "4.17.21") "lodash.js"
     = "https://unpkg.com/lodash@4.17.21/lodash.js"
  /\ getNpmPackageUrl "lodash" None = "https://unpkg.com/lodash/package.json".
Proof.
  apply (getNpmPackageUrl_plain "lodash" "4.17.21" "lodash.js");
    [|reflexivity].
  repeat constructor.
Defined.

Section OnPartialRegistry.
#[local] Existing Instance partial_registry.

Lemma importFromRegistry_survives_dependency_witness :
  let cfg := run (first_ready 11)
               (call (importFromRegistry 2 "a" "npm") fresh_process) in
  snd cfg = Ret VUndefined
  /\ is_Some (virtualModules (store (fst cfg)) !! Some "a")
  /\ virtualModules (store (fst cfg)) !! Some "b" = None
  /\ failedImports (store (fst cfg))
     = [(Some "b",
         message_of (NetworkError "HTTP 404 - Not Found" 404
                       "https://registry.npmjs.org/b/1.0.0"))]
  /\ importingDependencies (store (fst cfg)) = ∅
  /\ (WARN, "Failed to import dependency " ++ "b" ++ ": "
            ++ message_of (NetworkError "HTTP 404 - Not Found" 404
                             "https://registry.npmjs.org/b/1.0.0"))
     ∈ logged (store (fst cfg)).
Proof.
  apply (importFromRegistry_survives_dependency (H := partial_registry)
           "a" "b" "^1.0.0" (manifest [("b", "^1.0.0")])
           (NetworkError "HTTP 404 - Not Found" 404
              "https://unpkg.com/b@1.0.0/package.json")
           (NetworkError "HTTP 404 - Not Found" 404
              "https://registry.npmjs.org/b/1.0.0")).
  - reflexivity.
  - reflexivity.
  - discriminate.
  - reflexivity.
  - reflexivity.
  - exists "A". split; [intros earlier|]; reflexivity.
  - exists "exports.a = 1". split; [intros earlier|]; reflexivity.
  - intros earlier. reflexivity.
  - intros earlier. reflexivity.
  - cbn. lia.
Defined.
End OnPartialRegistry.

Section OnGitHubHost.
#[local] Existing Instance github_host.

End OnGitHubHost.
